(** * Galah: request dispatch, header filtering and event logging

    A shallow embedding of [server.go] (package [main]) and of the event
    logger (package [logger]) of the galah honeypot, with the properties of
    the dispatch pipeline proved over it.

    Go strings are byte strings ([string]); Go maps are [gmap]s; a Go
    [error] is carried as its message, [nil] being [None]. *)

From Stdlib Require Import ZArith NArith Ascii String List Lia DecimalString.
From stdpp Require Import base option list gmap fin_maps strings sorting.

Local Open Scope string_scope.
Local Open Scope list_scope.

(** Go's [error] interface, observed only through [Error()]. *)
Abbreviation error := string (only parsing).

(** A byte as the number it is, and back. *)
Definition byteOf (c : ascii) : Z := Z.of_N (N_of_ascii c).
Definition asByte (n : Z) : ascii := ascii_of_N (Z.to_N n).

Definition bytes (l : list Z) : string :=
  string_of_list_ascii (asByte <$> l).

(* ===================================================================== *)
(** ** Packages [unicode/utf8] and [unicode] *)
(* ===================================================================== *)

Module utf8.

Local Open Scope Z_scope.

Definition RuneError : Z := 0xFFFD.
Definition RuneSelf : Z := 0x80.
Definition MaxRune : Z := 0x10FFFF.

(** [first[s0]]: what the first byte says of the sequence it starts. The
    low three bits are the length of the sequence, the high four the
    index of the range in which its second byte must lie; [0xF0] marks an
    ASCII byte and [0xF1] a byte that starts no sequence. *)
Definition first (s0 : Z) : Z :=
  if s0 <? 0x80 then 0xF0
  else if s0 <? 0xC2 then 0xF1
  else if s0 <? 0xE0 then 0x02
  else if s0 =? 0xE0 then 0x13
  else if s0 <? 0xED then 0x03
  else if s0 =? 0xED then 0x23
  else if s0 <? 0xF0 then 0x03
  else if s0 =? 0xF0 then 0x34
  else if s0 <? 0xF4 then 0x04
  else if s0 =? 0xF4 then 0x44
  else 0xF1.

Definition acceptRanges (i : Z) : Z * Z :=
  if i =? 0 then (0x80, 0xBF)
  else if i =? 1 then (0xA0, 0xBF)
  else if i =? 2 then (0x80, 0x9F)
  else if i =? 3 then (0x90, 0xBF)
  else if i =? 4 then (0x80, 0x8F)
  else (0, 0).

(** [s[i]], for an [i] below the length. *)
Definition at_ (s : string) (i : nat) : Z :=
  match String.get i s with
  | Some c => byteOf c
  | None => 0
  end.

(** [DecodeRuneInString]: the first rune of [s] and its width in bytes;
    [(RuneError, 1)] when [s] starts with a byte sequence that encodes no
    rune. *)
Definition DecodeRuneInString (s : string) : Z * Z :=
  let n := Z.of_nat (String.length s) in
  if n <? 1 then (RuneError, 0) else
  let s0 := at_ s 0 in
  let x := first s0 in
  if 0xF0 <=? x then
    ((if Z.testbit x 0 then RuneError else s0), 1)
  else
    let sz := Z.land x 7 in
    let accept := acceptRanges (Z.shiftr x 4) in
    if n <? sz then (RuneError, 1) else
    let s1 := at_ s 1 in
    if (s1 <? fst accept) || (snd accept <? s1) then (RuneError, 1) else
    if sz <=? 2 then
      (Z.lor (Z.shiftl (Z.land s0 0x1F) 6) (Z.land s1 0x3F), 2)
    else
      let s2 := at_ s 2 in
      if (s2 <? 0x80) || (0xBF <? s2) then (RuneError, 1) else
      if sz <=? 3 then
        (Z.lor (Z.lor (Z.shiftl (Z.land s0 0x0F) 12)
                      (Z.shiftl (Z.land s1 0x3F) 6))
               (Z.land s2 0x3F), 3)
      else
        let s3 := at_ s 3 in
        if (s3 <? 0x80) || (0xBF <? s3) then (RuneError, 1) else
        (Z.lor (Z.lor (Z.shiftl (Z.land s0 0x07) 18)
                      (Z.shiftl (Z.land s1 0x3F) 12))
               (Z.lor (Z.shiftl (Z.land s2 0x3F) 6) (Z.land s3 0x3F)), 4).

(** [AppendRune] to the empty slice: the encoding of [r], which is that
    of [RuneError] for a surrogate and for a value that is no rune. *)
Definition AppendRune (r : Z) : string :=
  let i := r mod 2 ^ 32 in
  let cont (k : Z) := Z.lor 0x80 (Z.land (Z.shiftr i k) 0x3F) in
  if i <=? 0x7F then bytes [i]
  else if i <=? 0x7FF then bytes [Z.lor 0xC0 (Z.shiftr i 6); cont 0]
  else if (MaxRune <? i) || ((0xD800 <=? i) && (i <=? 0xDFFF))
  then bytes [0xEF; 0xBF; 0xBD]
  else if i <=? 0xFFFF
  then bytes [Z.lor 0xE0 (Z.shiftr i 12); cont 6; cont 0]
  else bytes [Z.lor 0xF0 (Z.shiftr i 18); cont 12; cont 6; cont 0].

(** The bytes of [s] from the start of a rune on: [width] is the number
    of bytes of the sequence under way that are still to come. A string
    is valid when no sequence in it decodes to [(RuneError, 1)]. *)
Fixpoint validFrom (width : nat) (s : string) : bool :=
  match s with
  | EmptyString => true
  | String _ s' =>
      match width with
      | S k => validFrom k s'
      | O =>
          let '(r, size) := DecodeRuneInString s in
          if (r =? RuneError) && (size =? 1) then false
          else validFrom (Z.to_nat size - 1) s'
      end
  end.

Definition ValidString (s : string) : bool := validFrom 0 s.

End utf8.

Module unicode.

Local Open Scope Z_scope.

Definition MaxASCII : Z := 0x7F.

(** [unicode.ToLower]. Beyond ASCII the lower case of a rune is looked
    up in the case tables of the Unicode version the program is built
    with, [To(LowerCase, r)]: that lookup is [lowerCase]. *)
Definition ToLower (lowerCase : Z → Z) (r : Z) : Z :=
  if r <=? MaxASCII then
    if (65 <=? r) && (r <=? 90) then r + (97 - 65) else r
  else lowerCase r.

End unicode.

(* ===================================================================== *)
(** ** Package [strings] *)
(* ===================================================================== *)

Module strings.

(** [c += 'a' - 'A'] for a [c] in [A-Z]. *)
Definition lower_byte (c : ascii) : ascii :=
  let n := byteOf c in
  if (65 <=? n)%Z && (n <=? 90)%Z then asByte (n + (97 - 65)) else c.

Fixpoint isASCII (s : string) : bool :=
  match s with
  | EmptyString => true
  | String c s' => (byteOf c <? utf8.RuneSelf)%Z && isASCII s'
  end.

Fixpoint hasUpper (s : string) : bool :=
  match s with
  | EmptyString => false
  | String c s' =>
      ((65 <=? byteOf c)%Z && (byteOf c <=? 90)%Z) || hasUpper s'
  end.

Fixpoint mapBytes (f : ascii → ascii) (s : string) : string :=
  match s with
  | EmptyString => EmptyString
  | String c s' => String (f c) (mapBytes f s')
  end.

(** [strings.Map]: the runes of [s], a byte that starts no rune counting
    as [RuneError], each replaced by the encoding of its image, or by
    nothing when the image is negative. Go copies the bytes of a rune
    that is its own image instead of encoding it again, which gives the
    same bytes. [width] counts the bytes of the rune under way that are
    still to be passed over. *)
Fixpoint mapFrom (mapping : Z → Z) (width : nat) (s : string) : string :=
  match s with
  | EmptyString => EmptyString
  | String _ s' =>
      match width with
      | S k => mapFrom mapping k s'
      | O =>
          let '(c, size) := utf8.DecodeRuneInString s in
          let r := mapping c in
          (if (0 <=? r)%Z then utf8.AppendRune r else "")
          +:+ mapFrom mapping (Z.to_nat size - 1) s'
      end
  end.

Definition Map (mapping : Z → Z) (s : string) : string := mapFrom mapping 0 s.

(** [strings.ToLower]: a string of ASCII bytes has its letters shifted;
    any other string is mapped rune by rune through [unicode.ToLower]. *)
Definition ToLower (lowerCase : Z → Z) (s : string) : string :=
  if isASCII s then
    if hasUpper s then mapBytes lower_byte s else s
  else Map (unicode.ToLower lowerCase) s.

Fixpoint HasPrefix (s prefix : string) : bool :=
  match prefix, s with
  | EmptyString, _ => true
  | String _ _, EmptyString => false
  | String p prefix', String c s' =>
      if Ascii.eqb c p then HasPrefix s' prefix' else false
  end.

(** [Contains s substr]: [substr] occurs at some offset of [s]. *)
Fixpoint Contains (s substr : string) : bool :=
  HasPrefix s substr ||
  match s with
  | EmptyString => false
  | String _ s' => Contains s' substr
  end.

(** The scan of [strings.Replace] with [n = -1] for a non-empty [old]:
    left to right, each leftmost occurrence of [old] is replaced and the
    scan resumes behind it. [skip] counts the bytes of a matched
    occurrence that are still to be passed over. *)
Fixpoint replaceFrom (old new : string) (skip : nat) (s : string) : string :=
  match s with
  | EmptyString => EmptyString
  | String c s' =>
      match skip with
      | S k => replaceFrom old new k s'
      | O =>
          if HasPrefix s old
          then new +:+ replaceFrom old new (String.length old - 1) s'
          else String c (replaceFrom old new 0 s')
      end
  end.

(** With an empty [old], Go inserts [new] before every rune, a byte that
    starts no rune counting as one, and at the end. [width] counts the
    bytes of the rune under way that are still to come. *)
Fixpoint interleave (new : string) (width : nat) (s : string) : string :=
  match s with
  | EmptyString => new
  | String c s' =>
      match width with
      | S k => String c (interleave new k s')
      | O =>
          let '(_, wid) := utf8.DecodeRuneInString s in
          new +:+ String c (interleave new (Z.to_nat wid - 1) s')
      end
  end.

Definition ReplaceAll (s old new : string) : string :=
  if String.eqb old new then s
  else match old with
       | EmptyString => interleave new 0 s
       | String _ _ => replaceFrom old new 0 s
       end.

Fixpoint Join (elems : list string) (sep : string) : string :=
  match elems with
  | [] => ""
  | [e] => e
  | e :: rest => e +:+ sep +:+ Join rest sep
  end.

End strings.

(* ===================================================================== *)
(** ** Package [net]: [SplitHostPort] *)
(* ===================================================================== *)

Module net.

(** Byte offsets are Go [int]s, [-1] standing for "not found". *)
Fixpoint IndexByte (s : string) (c : ascii) : Z :=
  match s with
  | EmptyString => -1
  | String a s' =>
      if Ascii.eqb a c then 0
      else let i := IndexByte s' c in if (i <? 0)%Z then -1 else (i + 1)%Z
  end.

Fixpoint LastIndexByte (s : string) (c : ascii) : Z :=
  match s with
  | EmptyString => -1
  | String a s' =>
      let i := LastIndexByte s' c in
      if (0 <=? i)%Z then (i + 1)%Z
      else if Ascii.eqb a c then 0 else -1
  end.

Definition len (s : string) : Z := Z.of_nat (String.length s).

(** The slice [s[lo:hi]]. *)
Definition slice (s : string) (lo hi : Z) : string :=
  String.substring (Z.to_nat lo) (Z.to_nat (hi - lo)) s.

Definition byte_at (s : string) (i : Z) : option ascii :=
  String.get (Z.to_nat i) s.

(** [(&AddrError{Err: why, Addr: hostport}).Error()] *)
Definition addrErr (hostport why : string) : error :=
  if String.eqb hostport "" then why
  else "address " +:+ hostport +:+ ": " +:+ why.

Definition missingPort : string := "missing port in address".
Definition tooManyColons : string := "too many colons in address".

Definition SplitHostPort (hostport : string) : (string * string) + error :=
  (* The port starts after the last colon. *)
  let i := LastIndexByte hostport ":" in
  if (i <? 0)%Z then inr (addrErr hostport missingPort) else
  let rest (host : string) (j k : Z) : (string * string) + error :=
    if (0 <=? IndexByte (slice hostport j (len hostport)) "[")%Z
    then inr (addrErr hostport "unexpected '[' in address")
    else if (0 <=? IndexByte (slice hostport k (len hostport)) "]")%Z
    then inr (addrErr hostport "unexpected ']' in address")
    else inl (host, slice hostport (i + 1) (len hostport)) in
  if bool_decide (byte_at hostport 0 = Some "["%char) then
    (* Expect the first ']' just before the last ':'. *)
    let end_ := IndexByte hostport "]" in
    if (end_ <? 0)%Z then inr (addrErr hostport "missing ']' in address")
    else if (end_ + 1 =? len hostport)%Z
    then inr (addrErr hostport missingPort)
    else if (end_ + 1 =? i)%Z
    then rest (slice hostport 1 end_) 1%Z (end_ + 1)%Z
    else if bool_decide (byte_at hostport (end_ + 1) = Some ":"%char)
    then inr (addrErr hostport tooManyColons)
    else inr (addrErr hostport missingPort)
  else
    let host := slice hostport 0 i in
    if (0 <=? IndexByte host ":")%Z
    then inr (addrErr hostport tooManyColons)
    else rest host 0%Z 0%Z.

End net.

(* ===================================================================== *)
(** ** Package [net/http]: headers and the response writer *)
(* ===================================================================== *)

Module http.

(** [textproto.validHeaderFieldByte]: the bytes of a token, by the bit
    mask of the library. *)
Definition tokenMask : Z :=
  foldr Z.lor 0%Z
    ([ Z.shiftl (2 ^ 10 - 1) 48; Z.shiftl (2 ^ 26 - 1) 97;
       Z.shiftl (2 ^ 26 - 1) 65 ]
     ++ (Z.shiftl 1 <$> [ 33; 35; 36; 37; 38; 39; 42; 43; 45; 46;
                          94; 95; 96; 124; 126 ]))%Z.

Definition validHeaderFieldByte (c : ascii) : bool :=
  (byteOf c <? 128)%Z && Z.testbit tokenMask (byteOf c).

(** The second loop of [canonicalMIMEHeaderKey]: upper case for the first
    letter and for a letter after a dash, lower case for the others.
    [canonByte] is the byte written for [c]. *)
Definition canonByte (upper : bool) (c : ascii) : ascii :=
  let n := byteOf c in
  if upper && (97 <=? n)%Z && (n <=? 122)%Z then asByte (n - 32)
  else if negb upper && (65 <=? n)%Z && (n <=? 90)%Z then asByte (n + 32)
  else c.

Fixpoint canonicalize (upper : bool) (a : string) : string :=
  match a with
  | EmptyString => EmptyString
  | String c a' =>
      let c := canonByte upper c in
      String c (canonicalize (Ascii.eqb c "-") a')
  end.

(** [canonicalMIMEHeaderKey]: a key that holds a byte outside the tokens
    is returned as it is, be the byte a space or not. *)
Definition canonicalMIMEHeaderKey (a : string) : string :=
  let other c := negb (validHeaderFieldByte c) && negb (Ascii.eqb c " ") in
  let noCanon := existsb (λ c, Ascii.eqb c " ") (list_ascii_of_string a) in
  if existsb other (list_ascii_of_string a) then a
  else if noCanon then a
  else canonicalize true a.

(** The first loop of [CanonicalMIMEHeaderKey] over the bytes [rest] of
    [s] that are left: a quick check that [s] is canonical already. *)
Fixpoint quickCheck (s : string) (upper : bool) (rest : string) : string :=
  match rest with
  | EmptyString => s
  | String c rest' =>
      let n := byteOf c in
      if negb (validHeaderFieldByte c) then s
      else if upper && (97 <=? n)%Z && (n <=? 122)%Z
      then canonicalMIMEHeaderKey s
      else if negb upper && (65 <=? n)%Z && (n <=? 90)%Z
      then canonicalMIMEHeaderKey s
      else quickCheck s (Ascii.eqb c "-") rest'
  end.

Definition CanonicalMIMEHeaderKey (s : string) : string := quickCheck s true s.

(** [http.Header], a [map[string][]string]. [Set], [Del] and [Get] reach
    the entry under the canonical spelling of the key they are given. *)
Abbreviation Header := (gmap string (list string)) (only parsing).

Definition Set_ (key value : string) (h : Header) : Header :=
  <[CanonicalMIMEHeaderKey key := [value]]> h.

Definition Del (key : string) (h : Header) : Header :=
  delete (CanonicalMIMEHeaderKey key) h.

(** [Header.Get]: the first value stored under the key, or [""]. *)
Definition Get (key : string) (h : Header) : string :=
  match h !! CanonicalMIMEHeaderKey key with
  | Some (v :: _) => v
  | _ => ""
  end.

Definition StatusOK : Z := 200.
Definition StatusInternalServerError : Z := 500.

(** What one connection's [http.ResponseWriter] has been asked to do:
    the header map, the status line once it is fixed, and the chunks
    handed to [Write], oldest first. [broken] is the error that [Write]
    reports on this connection, if the peer is gone. *)
Record ResponseWriter := {
  header : Header;
  status : option Z;
  written : list string;
  broken : option error;
}.

Definition fresh : ResponseWriter :=
  {| header := ∅; status := None; written := []; broken := None |}.

Definition with_header (f : Header → Header) (w : ResponseWriter)
  : ResponseWriter :=
  {| header := f (header w); status := status w;
     written := written w; broken := broken w |}.

(** [WriteHeader]: the first status wins. *)
Definition WriteHeader (code : Z) (w : ResponseWriter) : ResponseWriter :=
  {| header := header w;
     status := Some (default code (status w));
     written := written w; broken := broken w |}.

(** [Write]: an implicit [WriteHeader(StatusOK)] when no status has been
    sent, then the chunk; the result is the connection's error. *)
Definition Write (data : string) (w : ResponseWriter)
  : ResponseWriter * option error :=
  let w := WriteHeader StatusOK w in
  ({| header := header w; status := status w;
      written := written w ++ [data]; broken := broken w |},
   broken w).

Definition newline : string := String (ascii_of_nat 10) EmptyString.

(** [http.Error]: a plain-text reply whose body is the message and a
    line feed. *)
Definition Error (w : ResponseWriter) (msg : string) (code : Z)
  : ResponseWriter :=
  let w := with_header (Del "Content-Length") w in
  let w := with_header (Set_ "Content-Type" "text/plain; charset=utf-8") w in
  let w := with_header (Set_ "X-Content-Type-Options" "nosniff") w in
  let w := WriteHeader code w in
  fst (Write (msg +:+ newline) w).

(** The part of [*http.Request] that the program reads. *)
Record Request := {
  Method : string;
  Proto : string;
  RequestURI : string;
  URL : string;
  RemoteAddr : string;
  Headers : Header;
  Body : string;
}.

Definition UserAgent (r : Request) : string := Get "User-Agent" (Headers r).

End http.

(* ===================================================================== *)
(** ** [server.go]: the exclusion set and [sendResponse] *)
(* ===================================================================== *)

(** The payload that the generation backend returns as JSON. *)
Record HTTPResponse := {
  Headers : gmap string string;
  Body : string;
}.

Definition ignoreHeaders : gmap string bool :=
  list_to_map
    [ ("content-length", true); ("content-type", true); ("date", true);
      ("expires", true); ("last-modified", true);
      ("http", true); ("http/1.0", true); ("http/1.1", true);
      ("http/1.2", true); ("http/2.0", true) ].

(** Indexing a [map[string]bool] with an absent key yields [false].
    [lowerCase] is the case table that [strings.ToLower] looks runes
    beyond ASCII up in. *)
Definition isExcludedHeader (lowerCase : Z → Z) (headerKey : string) : bool :=
  default false (ignoreHeaders !! strings.ToLower lowerCase headerKey).

(* ===================================================================== *)
(** ** The world one request runs in *)
(* ===================================================================== *)

(** A line handed to the process logger: the format string and its
    arguments, as the call site gives them. *)
Inductive LogLine :=
| Infof (format : string) (args : list string)
| Infoln (message : string)
| Errorf (format : string) (args : list string).

(** Modelled from the spec: [makeEvent] and [writeLog] are not part of the
    sources at hand. An event is "one transaction": it is carried as the
    request, the response record and the destination port it is built
    from. *)
Record Event := {
  ev_request : http.Request;
  ev_response : HTTPResponse;
  ev_port : string;
}.

(** Every call that [handleRequest] makes to something outside itself, in
    program order. *)
Inductive Action :=
| Log (l : LogLine)
| Generate (r : http.Request)                        (* generateLLMResponse *)
| Store (key value : string) (err : option error)    (* storeResponse *)
| Reply500                                           (* http.Error *)
| Send (response : HTTPResponse)                     (* sendResponse *)
| WriteLog (ev : Event).                             (* writeLog *)

(** The state a handler reads and writes: the response cache, the writer
    of the connection being served and the calls made so far. *)
Record World := {
  cache : gmap string string;
  client : http.ResponseWriter;
  trace : list Action;
}.

(** What the surroundings answer while one request is served: the reply of
    the generation backend, should it be asked, the failure of the
    cache's backing store, should a write be attempted, and the order in
    which the runtime ranges over the headers of the record, which Go
    leaves open and which may differ from one [range] to the next. *)
Record Env := {
  llm : string + error;
  store_failure : option error;
  range_headers : gmap string string → list (string * string);
}.

Definition M (A : Type) : Type := World → A * World.

#[global] Instance M_ret : MRet M := λ A (a : A) (σ : World), (a, σ).
#[global] Instance M_bind : MBind M :=
  λ A B (f : A → M B) (c : M A) (σ : World), let '(a, σ') := c σ in f a σ'.

Definition emit (a : Action) : M unit :=
  λ σ, (tt, {| cache := cache σ; client := client σ;
               trace := trace σ ++ [a] |}).

Definition logf (l : LogLine) : M unit := emit (Log l).

Definition on_client {A} (f : http.ResponseWriter → http.ResponseWriter * A)
  : M A :=
  λ σ, let '(w, a) := f (client σ) in
       (a, {| cache := cache σ; client := w; trace := trace σ |}).

Definition exec {A} (c : M A) (σ : World) : World := snd (c σ).

(* ===================================================================== *)
(** ** [server.go]: [sendResponse] and [handleRequest] *)
(* ===================================================================== *)

(** The header loop of [sendResponse], over the entries of the map in
    the order in which they are ranged over: a later [Set] replaces an
    earlier one under the same canonical name. *)
Definition setHeaders (lowerCase : Z → Z) (entries : list (string * string))
    (h : http.Header) : http.Header :=
  foldl (λ acc entry,
           if isExcludedHeader lowerCase entry.1 then acc
           else http.Set_ entry.1 entry.2 acc)
        h entries.

Definition sendResponse (lowerCase : Z → Z) (env : Env)
    (response : HTTPResponse) : M unit :=
  emit (Send response);;
  on_client (λ w, (http.with_header
                     (setHeaders lowerCase
                        (range_headers env (Headers response))) w, tt));;
  err ← on_client (http.Write (Body response));
  match err with
  | Some e => logf (Errorf "error writing response: %s" [e])
  | None => mret tt
  end.

Section Dispatch.

(** The case table of [unicode], [getCacheKey], the request fingerprint,
    and [json.Unmarshal] into an [HTTPResponse]: none is part of the
    sources at hand, and nothing below depends on what they compute. *)
Variable lowerCase : Z → Z.
Variable getCacheKey : http.Request → string → string.
Variable Unmarshal : string → HTTPResponse + error.

(** Modelled from the spec: [checkCache] is not part of the sources at
    hand. "lookup(fingerprint) → ResponseRecord or miss", the entries
    being keyed uniquely and never expiring; the miss is what the
    caller sees as a non-nil error. *)
Definition checkCache (r : http.Request) (port : string)
  : M (string + error) :=
  λ σ, (match cache σ !! getCacheKey r port with
        | Some response => inl response
        | None => inr "cache miss"
        end, σ).

(** Modelled from the spec: [storeResponse] is not part of the sources
    at hand. "store(fingerprint, ResponseRecord) → success/failure",
    last write wins; a failed store leaves the cache as it was. *)
Definition storeResponse (env : Env) (key response : string)
  : M (option error) :=
  λ σ, (store_failure env,
        {| cache := match store_failure env with
                    | Some _ => cache σ
                    | None => <[key := response]> (cache σ)
                    end;
           client := client σ;
           trace := trace σ ++ [Store key response (store_failure env)] |}).

(** The generation backend is outside the program: the call is recorded
    and answered by the surroundings. *)
Definition generateLLMResponse (env : Env) (r : http.Request)
  : M (string + error) :=
  emit (Generate r);; mret (llm env).

Definition makeEvent (r : http.Request) (resp : HTTPResponse)
    (port : string) : Event :=
  {| ev_request := r; ev_response := resp; ev_port := port |}.

Definition writeLog (ev : Event) : M unit := emit (WriteLog ev).

(** [http.Error(w, "Internal Server Error", http.StatusInternalServerError)] *)
Definition internalServerError : M unit :=
  emit Reply500;;
  on_client (λ w, (http.Error w "Internal Server Error"
                              http.StatusInternalServerError, tt)).

(** [handleRequest]. A [return] in the middle of the Go function shows
    here as [None]: nothing is left to parse. *)
Definition handleRequest (env : Env) (r : http.Request)
    (serverAddr : string) : M unit :=
  let port := match net.SplitHostPort serverAddr with
              | inl (_, port) => port
              | inr _ => ""
              end in
  logf (Infof "port %s received a request for %q, from source %s"
              [port; http.URL r; http.RemoteAddr r]);;
  (* Check the response cache *)
  cached ← checkCache r port;
  obtained ←
    match cached with
    | inl response => mret (Some response)
    | inr err =>
        logf (Infof "request cache miss for %q: %s" [http.URL r; err]);;
        (* Call the LLM API to generate response *)
        generated ← generateLLMResponse env r;
        match generated with
        | inr err =>
            logf (Errorf "error generating response: %s" [err]);;
            internalServerError;;
            mret None
        | inl responseString =>
            logf (Infof "generated HTTP response: %s" [responseString]);;
            (* Store the generated response in the cache *)
            let response := responseString in
            let key := getCacheKey r port in
            _ ← storeResponse env key response;
            mret (Some response)
        end
    end;
  match obtained with
  | None => mret tt
  | Some response =>
      (* Parse the JSON-encoded data into a HTTPResponse struct, and send
         it to the client. *)
      match Unmarshal response with
      | inr err =>
          logf (Errorf "error unmarshalling the json-encoded data: %s" [err]);;
          internalServerError
      | inl respData =>
          sendResponse lowerCase env respData;;
          logf (Infof "sent the generated response to %s" [http.RemoteAddr r]);;
          writeLog (makeEvent r respData port)
      end
  end.

End Dispatch.

(* ===================================================================== *)
(** ** [server.go]: starting the listeners *)
(* ===================================================================== *)

(** [fmt.Sprintf("%d", n)] for an unsigned [n]. *)
Definition itoa (n : Z) : string :=
  DecimalString.NilZero.string_of_uint (N.to_uint (Z.to_N n)).

(** One entry of [Config.Ports]; [Port] is a [uint16]. *)
Record PortConfig := {
  Port : Z;
  Protocol : string;
  TLSProfile : string;
}.

#[global] Instance PortConfig_eq_dec : EqDecision PortConfig.
Proof. solve_decision. Defined.

Record TLSConfig := {
  Certificate : string;
  Key : string;
}.

Record Config := {
  Ports : list PortConfig;
  TLS : gmap string TLSConfig;
}.

(** The fields of [*http.Server] that [setupServer] fills in, the handler
    being [handleRequest] at [Addr]; durations are nanoseconds. *)
Record Server := {
  Addr : string;
  ReadTimeout : Z;
  WriteTimeout : Z;
}.

Definition Second : Z := 1000000000.

Definition setupServer (pc : PortConfig) : Server :=
  let serverAddr := ":" +:+ itoa (Port pc) in
  {| Addr := serverAddr;
     ReadTimeout := 10 * Second;
     WriteTimeout := 10 * Second |}.

(** How binding and serving end, per server: the error that
    [ListenAndServe] and [ListenAndServeTLS] come back with. *)
Record Network := {
  ListenAndServe : Server → option error;
  ListenAndServeTLS : Server → string → string → option error;
}.

Definition startTLSServer (cfg : Config) (nw : Network) (server : Server)
    (pc : PortConfig) : list LogLine * option error :=
  if String.eqb (TLSProfile pc) "" then
    ([], Some ("TLS profile is not configured for port " +:+ itoa (Port pc)))
  else
    match TLS cfg !! TLSProfile pc with
    | None =>
        ([], Some ("TLS profile is incomplete for port " +:+ itoa (Port pc)))
    | Some tlsConfig =>
        if String.eqb (Certificate tlsConfig) "" || String.eqb (Key tlsConfig) ""
        then
          ([], Some ("TLS profile is incomplete for port " +:+ itoa (Port pc)))
        else
          ([Infof "starting HTTPS server on port %d with TLS profile: %s"
                  [itoa (Port pc); TLSProfile pc]],
           ListenAndServeTLS nw server (Certificate tlsConfig) (Key tlsConfig))
    end.

Definition startHTTPServer (nw : Network) (server : Server) (pc : PortConfig)
  : list LogLine * option error :=
  ([Infof "starting HTTP server on port %d" [itoa (Port pc)]],
   ListenAndServe nw server).

(** The function handed to [g.Go], without its entry in the registry: the
    lines it logs and the error it returns. *)
Definition startListener (cfg : Config) (nw : Network) (pc : PortConfig)
  : list LogLine * option error :=
  let server := setupServer pc in
  let '(lines, err) :=
    if String.eqb (Protocol pc) "TLS" then startTLSServer cfg nw server pc
    else if String.eqb (Protocol pc) "HTTP" then startHTTPServer nw server pc
    else ([], Some ("unknown protocol for port " +:+ itoa (Port pc))) in
  match err with
  | Some e =>
      ((lines ++ [Errorf "error starting server on port %d: %s"
                         [itoa (Port pc); e]])%list, Some e)
  | None => (lines, None)
  end.

(** What the tasks of [startServers] have left behind: [app.Servers],
    the lines logged and the error that the group holds, which is the
    first one returned by a task. *)
Record Startup := {
  Servers : gmap Z Server;
  startup_log : list LogLine;
  startup_err : option error;
}.

(** The tasks of [startServers]. [finished] lists the tasks of the
    [errgroup] that have come to an end, in the order in which they did;
    a task whose listener is serving has not. A task that ends without
    an error has entered its server in [app.Servers]. *)
Definition startServers (cfg : Config) (nw : Network)
    (finished : list PortConfig) : Startup :=
  foldl (λ acc pc,
           let '(lines, err) := startListener cfg nw pc in
           match err with
           | Some e =>
               {| Servers := Servers acc;
                  startup_log := startup_log acc ++ lines;
                  startup_err := Some (default e (startup_err acc)) |}
           | None =>
               {| Servers := <[Port pc := setupServer pc]> (Servers acc);
                  startup_log := startup_log acc ++ lines;
                  startup_err := startup_err acc |}
           end)
        {| Servers := ∅; startup_log := []; startup_err := None |}
        finished.

(** [return g.Wait()]: [Wait] blocks until every function handed to
    [g.Go] has returned, and then hands back the error that the group
    holds. While a task has not ended, [startServers] has not returned:
    that is [None]. *)
Definition Wait (cfg : Config) (nw : Network) (finished : list PortConfig)
  : option (option error) :=
  if decide (finished ≡ₚ Ports cfg)
  then Some (startup_err (startServers cfg nw finished))
  else None.

(* ===================================================================== *)
(** ** [server.go]: shutting down *)
(* ===================================================================== *)

(** What the task of [listenForShutdownSignals] has done when the process
    ends: the servers on which it called [Shutdown], the lines it logged
    and the status it exited with. *)
Record Exit := {
  shut_down : list Server;
  exit_log : list LogLine;
  exit_status : Z;
}.

(** [listenForShutdownSignals], from the arrival of the signal on.
    [servers] is [app.Servers] at that time and [Shutdown] tells how the
    shutdown of a server ends. *)
Definition listenForShutdownSignals (servers : gmap Z Server)
    (Shutdown : Server → option error) : Exit :=
  let targets := (map_to_list servers).*2 in
  {| shut_down := targets;
     exit_log :=
       [Infof "received shutdown signal. shutting down servers..." []]
       ++ omap (λ server,
                  match Shutdown server with
                  | Some err =>
                      Some (Errorf "error shutting down server: %s" [err])
                  | None => None
                  end) targets
       ++ [Infoln "all servers shut down gracefully."];
     exit_status := 0 |}.

(* ===================================================================== *)
(** ** Packages [crypto/sha256] and [encoding/hex] *)
(* ===================================================================== *)

Module sha256.

Local Open Scope Z_scope.

(** 32-bit words are integers below [2^32]. *)
Definition w32 (x : Z) : Z := x mod 2 ^ 32.
Definition add32 (x y : Z) : Z := w32 (x + y).
Definition not32 (x : Z) : Z := Z.lxor x 0xffffffff.
Definition rotr (n x : Z) : Z :=
  w32 (Z.lor (Z.shiftr x n) (Z.shiftl x (32 - n))).

Definition Ch (x y z : Z) : Z := Z.lxor (Z.land x y) (Z.land (not32 x) z).
Definition Maj (x y z : Z) : Z :=
  Z.lxor (Z.lxor (Z.land x y) (Z.land x z)) (Z.land y z).
Definition bsig0 (x : Z) : Z :=
  Z.lxor (Z.lxor (rotr 2 x) (rotr 13 x)) (rotr 22 x).
Definition bsig1 (x : Z) : Z :=
  Z.lxor (Z.lxor (rotr 6 x) (rotr 11 x)) (rotr 25 x).
Definition ssig0 (x : Z) : Z :=
  Z.lxor (Z.lxor (rotr 7 x) (rotr 18 x)) (Z.shiftr x 3).
Definition ssig1 (x : Z) : Z :=
  Z.lxor (Z.lxor (rotr 17 x) (rotr 19 x)) (Z.shiftr x 10).

(** The constants are fractional parts of roots of primes, 32 bits each:
    of the cube roots of the first sixty-four primes for the rounds, of
    the square roots of the first eight for the initial state. *)
Definition is_prime (n : nat) : bool :=
  forallb (λ d, negb (n mod d =? 0)%nat) (seq 2 (n - 2)).

Definition primes : list Z := Z.of_nat <$> filter is_prime (seq 2 310).

(** The integer cube root, one bit at a time from bit [bits - 1] down. *)
Fixpoint cube_root (bits : nat) (n r : Z) : Z :=
  match bits with
  | O => r
  | S b =>
      let r' := r + 2 ^ Z.of_nat b in
      cube_root b n (if r' * r' * r' <=? n then r' else r)
  end.

Definition K : list Z :=
  (λ p, w32 (cube_root 40 (p * 2 ^ 96) 0)) <$> primes.

Definition init : list Z :=
  (λ p, w32 (Z.sqrt (p * 2 ^ 64))) <$> take 8 primes.

Definition bytes_of (s : string) : list Z :=
  (λ c, Z.of_N (N_of_ascii c)) <$> list_ascii_of_string s.

(** [n] as [k] bytes, most significant first. *)
Fixpoint be_bytes (k : nat) (n : Z) : list Z :=
  match k with
  | O => []
  | S k' => Z.shiftr n (8 * Z.of_nat k') mod 256 :: be_bytes k' n
  end.

(** The message, the byte [0x80], zero bytes up to 56 modulo 64, and the
    length in bits on 8 bytes. *)
Definition pad (msg : list Z) : list Z :=
  let n := Z.of_nat (length msg) in
  let zeros := Z.to_nat ((55 - n) mod 64) in
  (msg ++ 0x80 :: replicate zeros 0 ++ be_bytes 8 (8 * n))%list.

Definition word_of (b3 b2 b1 b0 : Z) : Z :=
  Z.lor (Z.lor (Z.shiftl b3 24) (Z.shiftl b2 16)) (Z.lor (Z.shiftl b1 8) b0).

Fixpoint words (fuel : nat) (bs : list Z) : list Z :=
  match fuel, bs with
  | S fuel', b3 :: b2 :: b1 :: b0 :: rest =>
      word_of b3 b2 b1 b0 :: words fuel' rest
  | _, _ => []
  end.

(** The message schedule, newest word first: from [W(t-1) .. W(t-16)] at
    the head, [W(t)] is put in front. *)
Definition extend (ws : list Z) : list Z :=
  let w i := nth i ws 0 in
  add32 (add32 (ssig1 (w 1%nat)) (w 6%nat))
        (add32 (ssig0 (w 14%nat)) (w 15%nat)) :: ws.

Definition schedule (block : list Z) : list Z :=
  rev (Nat.iter 48 extend (rev block)).

Definition round (st : list Z) (kw : Z * Z) : list Z :=
  match st with
  | [a; b; c; d; e; f; g; h] =>
      let t1 := add32 (add32 (add32 h (bsig1 e)) (Ch e f g))
                      (add32 (fst kw) (snd kw)) in
      let t2 := add32 (bsig0 a) (Maj a b c) in
      [add32 t1 t2; a; b; c; add32 d t1; e; f; g]
  | _ => st
  end.

Definition compress (h : list Z) (block : list Z) : list Z :=
  zip_with add32 h (foldl round h (zip K (schedule block))).

Fixpoint blocks (fuel : nat) (h : list Z) (ws : list Z) : list Z :=
  match fuel with
  | O => h
  | S fuel' =>
      match ws with
      | [] => h
      | _ => blocks fuel' (compress h (take 16 ws)) (drop 16 ws)
      end
  end.

(** [sha256.Sum256]: the 32 bytes of the digest. *)
Definition Sum256 (data : string) : list Z :=
  let bs := pad (bytes_of data) in
  let ws := words (length bs) bs in
  mjoin (be_bytes 4 <$> blocks (length ws) init ws).

End sha256.

Module hex.

Definition digit (n : Z) : ascii :=
  ascii_of_nat (Z.to_nat (if (n <? 10)%Z then 48 + n else 87 + n)%Z).

Fixpoint EncodeToString (src : list Z) : string :=
  match src with
  | [] => ""
  | b :: rest =>
      String (digit (b / 16)) (String (digit (b mod 16)) (EncodeToString rest))
  end.

End hex.

(* ===================================================================== *)
(** ** Package [encoding/json]: what the encoder does to a value *)
(* ===================================================================== *)

Module json.

(** A string as a reader of the encoded text gets it back. The encoder
    writes the bytes of every rune that decodes, escaped or not, and
    [\ufffd] for each byte that starts no rune. [width] counts the bytes
    of the rune under way that are still to come. *)
Fixpoint textFrom (width : nat) (s : string) : string :=
  match s with
  | EmptyString => EmptyString
  | String c s' =>
      match width with
      | S k => String c (textFrom k s')
      | O =>
          let '(r, size) := utf8.DecodeRuneInString s in
          if (r =? utf8.RuneError)%Z && (size =? 1)%Z
          then bytes [0xEF; 0xBF; 0xBD]%Z +:+ textFrom 0 s'
          else String c (textFrom (Z.to_nat size - 1) s')
      end
  end.

Definition text (s : string) : string := textFrom 0 s.

(** A [float64], given by its bits, that is neither an infinity nor a
    NaN. The encoder refuses the others with an
    [UnsupportedValueError]. *)
Definition finite (bits : Z) : bool :=
  negb (Z.land (Z.shiftr bits 52) 0x7FF =? 0x7FF)%Z.

#[global] Arguments finite : simpl never.

End json.

(* ===================================================================== *)
(** ** Package [llm]: the configuration and the payload the logger reads *)
(* ===================================================================== *)

Module llm.

(** [Temperature] is a [float64]; it is copied, and encoded when an
    entry is written, and is carried as its 64 bits. *)
Record Config := {
  Provider : string;
  Model : string;
  Temperature : Z;
}.

Record JSONResponse := {
  Headers : gmap string string;
  Body : string;
}.

End llm.

(* ===================================================================== *)
(** ** Package [logger] *)
(* ===================================================================== *)

Module logger.

Definition errorInvalidJSONResponse : string := "invalidJSONResponse".
Definition errorEmptyLLMResponse : string := "emptyLLMResponse".
Definition errorContentGeneration : string := "contentGenerationError".

(** The values that the package stores in a [logrus.Fields]: strings,
    the temperature of the model, and, once an entry is formatted, the
    instant of the entry with the layout it is printed in. *)
Inductive Value :=
| VString (s : string)
| VFloat (bits : Z)
| VTime (layout : string) (t : Z).

Abbreviation Fields := (gmap string Value) (only parsing).

(** *** [errorFields] *)

Definition errorFields (err : error) (resp : string) : Fields :=
  let errMsg := err in
  let '(errorType, errMsg) :=
    if strings.Contains errMsg errorInvalidJSONResponse then
      (errorInvalidJSONResponse,
       strings.ReplaceAll errMsg (errorInvalidJSONResponse +:+ ": ") "")
    else if strings.Contains errMsg errorEmptyLLMResponse then
      (errorEmptyLLMResponse,
       strings.ReplaceAll errMsg (errorEmptyLLMResponse +:+ ": ") "")
    else
      (errorContentGeneration,
       strings.ReplaceAll errMsg (errorContentGeneration +:+ ": ") "") in
  <["type" := VString errorType]>
    (<["msg" := VString errMsg]>
       (<["invalidResponse" := VString resp]> ∅)).

(** *** The sessionizer *)

Record Session := {
  sessionID : string;
  lastSeen : Z;
}.

(** The store of the sessionizer and its inactivity window; instants and
    durations are nanoseconds. *)
Record Sessionizer := {
  sessions : gmap string Session;
  window : Z;
}.

(** Modelled from the spec: [Sessionizer.Process] is not part of the
    sources at hand, only its call in [commonFields] is. "On each call:
    if no entry exists, or now - lastSeen exceeds the inactivity window,
    assign a new randomly generated session identifier and record
    lastSeen = now; otherwise return the existing identifier and refresh
    lastSeen = now." [random] is the identifier that the generator
    hands out if one is asked for. *)
Definition Process (random : string) (s : Sessionizer) (srcIP : string)
    (now : Z) : (string * option error) * Sessionizer :=
  let assign (id : string) :=
    ((id, None),
     {| sessions := <[srcIP := {| sessionID := id; lastSeen := now |}]>
                      (sessions s);
        window := window s |}) in
  match sessions s !! srcIP with
  | None => assign random
  | Some entry =>
      if (window s <? now - lastSeen entry)%Z then assign random
      else assign (sessionID entry)
  end.

(** *** The event logger *)

(** [enrich.Info] and [Enricher.Process]: the enrichment backend is
    outside the program and answers per address. *)
Record Info := {
  KnownScanner : string;
  Host : string;
}.

Inductive Level := ErrorLevel | InfoLevel.

Definition Level_String (lv : Level) : string :=
  match lv with ErrorLevel => "error" | InfoLevel => "info" end.

(** A [logrus.Entry] at the time it is written. *)
Record Entry := {
  Data : Fields;
  Time : Z;
  EntryLevel : Level;
  Message : string;
}.

(** [logrus.JSONFormatter], with the one key of its [FieldMap] that is
    set. *)
Record JSONFormatter := {
  TimestampFormat : string;
  FieldKeyTime : string;
}.

Definition RFC3339 : string := "2006-01-02T15:04:05Z07:00".

(** [JSONFormatter.Format] up to the encoding: the object that is handed
    to the encoder. A field of the entry that bears the name of one of
    the keys of the formatter moves to ["fields." + name]. *)
Definition prefixFieldClash (key : string) (data : Fields) : Fields :=
  match data !! key with
  | Some v => delete key (<["fields." +:+ key := v]> data)
  | None => data
  end.

Definition Format (f : JSONFormatter) (e : Entry) : Fields :=
  let data := Data e in
  let data := prefixFieldClash (FieldKeyTime f) data in
  let data := prefixFieldClash "msg" data in
  let data := prefixFieldClash "level" data in
  let data := prefixFieldClash "logrus_error" data in
  let data := <[FieldKeyTime f := VTime (TimestampFormat f) (Time e)]> data in
  let data := <["msg" := VString (Message e)]> data in
  <["level" := VString (Level_String (EntryLevel e))]> data.

(** One line of the event log as a reader of the file decodes it: the
    members of the object, in the order in which they are written. *)
Abbreviation Line := (list (string * Value)) (only parsing).

Definition encodeValue (v : Value) : option Value :=
  match v with
  | VString s => Some (VString (json.text s))
  | VFloat bits => if json.finite bits then Some v else None
  | VTime _ _ => Some v
  end.

(** The members of a map are written in the order of their keys. *)
Definition byKey (a b : string * Value) : Prop := String.le a.1 b.1.

#[global] Instance byKey_dec : RelDecision byKey.
Proof. intros a b. unfold byKey. apply _. Defined.

(** [json.Encoder.Encode] of the object, the last step of
    [JSONFormatter.Format]: it fails when a value cannot be encoded. *)
Definition Encode (data : Fields) : option Line :=
  mapM (λ member, v ← encodeValue member.2; Some (json.text member.1, v))
       (merge_sort byKey (map_to_list data)).

(** The event logger: its formatter and the lines appended to the file
    it writes to, oldest first. *)
Record EventLog := {
  Formatter : JSONFormatter;
  Out : list Line;
}.

Record Logger := {
  EnrichCache : string → option Info + error;
  Sessions : Sessionizer;
  EventLogger : EventLog;
  LLMConfig : llm.Config;
}.

(** [New], once the log file is open. *)
Definition New (modelConfig : llm.Config)
    (eCache : string → option Info + error) (sessionizer : Sessionizer)
  : Logger :=
  {| EnrichCache := eCache;
     Sessions := sessionizer;
     EventLogger := {| Formatter := {| TimestampFormat := RFC3339;
                                       FieldKeyTime := "timestamp" |};
                       Out := [] |};
     LLMConfig := modelConfig |}.

(** What the machine answers during one call of the logger: the clock in
    [commonFields], the clock when the entry is written, the host name,
    and the identifiers that [uuid.NewString] and the sessionizer's
    generator would hand out. *)
Record Machine := {
  Now : Z;
  EntryTime : Z;
  Hostname : string + error;
  NewString : string;
  NewSession : string;
}.

Definition getHostname (h : Machine) : string + error :=
  match Hostname h with
  | inl hostname => inl hostname
  | inr err => inr ("failed to get hostname: " +:+ err)
  end.

(** A Go map is ranged over in no fixed order; the keys are sorted
    before any use. *)
Definition headerKeys (headers : http.Header) : list string :=
  (map_to_list headers).*1.

Definition sort_Strings (l : list string) : list string :=
  merge_sort String.le l.

Definition sha256Hex (data : string) : string :=
  hex.EncodeToString (sha256.Sum256 data).

Definition headersSortedSha256 (headerKeys : list string) : string :=
  sha256Hex (strings.Join headerKeys ",").

Definition convertMap (input : http.Header) : gmap string string :=
  (λ values, strings.Join values ", ") <$> input.

(** [for k, v := range m { fields[prefix+k] = v }] *)
Definition flatten (prefix : string) (m : gmap string string)
    (fields : Fields) : Fields :=
  map_fold (λ k v acc, <[prefix +:+ k := VString v]> acc) fields m.

(** [WithFields(fields)] followed by a call that logs [msg] at level
    [lv]: the entry is formatted and the line appended to the file. When
    the formatter fails, logrus complains on the standard error stream
    and writes no line. *)
Definition WithFields (fields : Fields) (lv : Level) (msg : string)
    (t : Z) (ev : EventLog) : EventLog :=
  match Encode (Format (Formatter ev)
                  {| Data := fields; Time := t;
                     EntryLevel := lv; Message := msg |}) with
  | Some line => {| Formatter := Formatter ev; Out := Out ev ++ [line] |}
  | None => ev
  end.

(** [commonFields]: the fields, the store of the sessionizer after its
    call, and the lines sent to the process logger. *)
Definition commonFields (l : Logger) (m : Machine) (r : http.Request)
    (port : string) : Fields * Sessionizer * list LogLine :=
  let now := Now m in
  let '(srcIP, srcPort) :=
    match net.SplitHostPort (http.RemoteAddr r) with
    | inl (host, port) => (host, port)
    | inr _ => (http.RemoteAddr r, "")
    end in
  let '(tags, host, lines1) :=
    match EnrichCache l srcIP with
    | inr err =>
        ([], "",
         [Errorf "error getting enrichment info for %q: %s" [srcIP; err]])
    | inl (Some srcIPInfo) =>
        (if String.eqb (KnownScanner srcIPInfo) "" then []
         else [KnownScanner srcIPInfo],
         if String.eqb (Host srcIPInfo) "" then "" else Host srcIPInfo, [])
    | inl None => ([], "", [])
    end in
  let sensorName :=
    match getHostname m with
    | inl name => name
    | inr _ => NewString m
    end in
  let headerKeys := sort_Strings (headerKeys (http.Headers r)) in
  let bodyBytes := http.Body r in
  let '((sessionID, err), sessions') :=
    Process (NewSession m) (Sessions l) srcIP now in
  let lines2 :=
    match err with
    | Some e =>
        [Errorf "error generating session ID for %q: %s" [srcIP; e]]
    | None => []
    end in
  (* Flatten all the fields directly, rather than nesting them *)
  let fields : Fields :=
    list_to_map
      [ ("src_ip", VString srcIP);
        ("hostname", VString host);
        ("src_port", VString srcPort);
        ("tags", VString (strings.Join tags ","));
        ("sensorName", VString sensorName);
        ("dest_port", VString port);
        ("session", VString sessionID);
        ("request.method", VString (http.Method r));
        ("request.protocol", VString (http.Proto r));
        ("request.requestURI", VString (http.RequestURI r));
        ("request.userAgent", VString (http.UserAgent r));
        ("request.body", VString bodyBytes);
        ("request.bodySha256", VString (sha256Hex bodyBytes));
        ("request.headers.sorted", VString (strings.Join headerKeys ","));
        ("request.headers.sortedSha256",
         VString (headersSortedSha256 headerKeys)) ] in
  (* Flatten headers *)
  (flatten "request.headers." (convertMap (http.Headers r)) fields,
   sessions', (lines1 ++ lines2)%list).

Definition with_log (l : Logger) (sessions' : Sessionizer)
    (ev : EventLog) : Logger :=
  {| EnrichCache := EnrichCache l; Sessions := sessions';
     EventLogger := ev; LLMConfig := LLMConfig l |}.

(** [LogError] logs a failedResponse event. *)
Definition LogError (l : Logger) (m : Machine) (r : http.Request)
    (resp port : string) (err : error) : Logger * list LogLine :=
  let '(fields, sessions', lines) := commonFields l m r port in
  let fields :=
    map_fold (λ k v acc, <[k := v]> acc) fields (errorFields err resp) in
  let fields :=
    <["response.metadata.provider" :=
        VString (llm.Provider (LLMConfig l))]> fields in
  let fields :=
    <["response.metadata.model" := VString (llm.Model (LLMConfig l))]>
      fields in
  let fields :=
    <["response.metadata.temperature" :=
        VFloat (llm.Temperature (LLMConfig l))]> fields in
  (with_log l sessions'
     (WithFields fields ErrorLevel
        "failedResponse: returned 500 internal server error"
        (EntryTime m) (EventLogger l)),
   lines).

(** [LogEvent] logs a successfulResponse event. *)
Definition LogEvent (l : Logger) (m : Machine) (r : http.Request)
    (resp : llm.JSONResponse) (port respSource : string)
  : Logger * list LogLine :=
  let '(fields, sessions', lines) := commonFields l m r port in
  (* Flatten response headers *)
  let fields := flatten "response.headers." (llm.Headers resp) fields in
  let fields := <["response.body" := VString (llm.Body resp)]> fields in
  let fields :=
    <["response.metadata.generationSource" := VString respSource]> fields in
  let fields :=
    <["response.metadata.provider" :=
        VString (llm.Provider (LLMConfig l))]> fields in
  let fields :=
    <["response.metadata.model" := VString (llm.Model (LLMConfig l))]>
      fields in
  let fields :=
    <["response.metadata.temperature" :=
        VFloat (llm.Temperature (LLMConfig l))]> fields in
  (with_log l sessions'
     (WithFields fields InfoLevel "successfulResponse"
        (EntryTime m) (EventLogger l)),
   lines).

End logger.

(* ===================================================================== *)
(** ** Vocabulary of the statements *)
(* ===================================================================== *)

(** The names of [ignoreHeaders]. *)
Definition excludedNames : list string :=
  [ "content-length"; "content-type"; "date"; "expires"; "last-modified";
    "http"; "http/1.0"; "http/1.1"; "http/1.2"; "http/2.0" ].

(** The class that [errorFields] gives a message: the first of the
    markers, in the order of the [switch], that occurs in it. *)
Definition classOf (errMsg : string) : string :=
  if strings.Contains errMsg logger.errorInvalidJSONResponse
  then logger.errorInvalidJSONResponse
  else if strings.Contains errMsg logger.errorEmptyLLMResponse
  then logger.errorEmptyLLMResponse
  else logger.errorContentGeneration.

(** The lower case of an ASCII string. *)
Definition asciiLower (s : string) : string :=
  strings.mapBytes strings.lower_byte s.

(** The value that the header loop leaves under [name]: that of the last
    entry ranged over whose key is not excluded and has [name] for its
    canonical spelling. *)
Definition survivor (lowerCase : Z → Z) (entries : list (string * string))
    (name : string) : option string :=
  snd <$> last (filter (λ entry,
                          http.CanonicalMIMEHeaderKey entry.1 = name
                          ∧ isExcludedHeader lowerCase entry.1 = false)
                       entries).

(** An order in which the runtime may range over the headers of a
    record: every entry once. *)
Definition rangesOver (env : Env) (headers : gmap string string) : Prop :=
  range_headers env headers ≡ₚ map_to_list headers.

(** No two names of the map have the same canonical spelling. *)
Definition distinctNames (headers : gmap string string) : Prop :=
  ∀ key key' : string,
    is_Some (headers !! key) → is_Some (headers !! key') →
    http.CanonicalMIMEHeaderKey key = http.CanonicalMIMEHeaderKey key' →
    key = key'.

(** A handler starts on a live connection to which nothing has been
    sent. *)
Definition start (c : gmap string string) : World :=
  {| cache := c; client := http.fresh; trace := [] |}.

(** Projections of a trace: the records handed to [sendResponse], the
    calls of the generation backend, the writes to the cache, the events
    emitted and the lines logged. *)
Definition sent (tr : list Action) : list HTTPResponse :=
  omap (λ a, match a with Send response => Some response | _ => None end) tr.

Definition generated (tr : list Action) : list http.Request :=
  omap (λ a, match a with Generate r => Some r | _ => None end) tr.

Definition stored (tr : list Action) : list (string * string) :=
  omap (λ a, match a with Store k v _ => Some (k, v) | _ => None end) tr.

Definition events (tr : list Action) : list Event :=
  omap (λ a, match a with WriteLog ev => Some ev | _ => None end) tr.

Definition logged (tr : list Action) : list LogLine :=
  omap (λ a, match a with Log l => Some l | _ => None end) tr.

(** The port that [handleRequest] reads off the address of its server. *)
Definition destPort (serverAddr : string) : string :=
  match net.SplitHostPort serverAddr with
  | inl (_, port) => port
  | inr _ => ""
  end.


(** Requests served one after the other, each on a connection of its
    own, the cache being handed on. *)
Fixpoint serveAll (lowerCase : Z → Z)
    (getCacheKey : http.Request → string → string)
    (Unmarshal : string → HTTPResponse + error) (c : gmap string string)
    (requests : list (Env * http.Request * string)) : list World :=
  match requests with
  | [] => []
  | (env, r, serverAddr) :: rest =>
      let σ := exec (handleRequest lowerCase getCacheKey Unmarshal env r
                       serverAddr)
                    (start c) in
      σ :: serveAll lowerCase getCacheKey Unmarshal (cache σ) rest
  end.




(** The errors with which the listeners of [ports] come to an end, in the
    order of [ports]. *)
Definition failures (cfg : Config) (nw : Network) (ports : list PortConfig)
  : list error :=
  omap (λ pc, (startListener cfg nw pc).2) ports.

(** The address and the port that [commonFields] reads off
    [r.RemoteAddr]. *)
Definition remote (r : http.Request) : string * string :=
  match net.SplitHostPort (http.RemoteAddr r) with
  | inl (host, port) => (host, port)
  | inr _ => (http.RemoteAddr r, "")
  end.

(** The formatter that [New] installs. *)
Definition jsonLines : logger.JSONFormatter :=
  {| logger.TimestampFormat := logger.RFC3339;
     logger.FieldKeyTime := "timestamp" |}.

(** The names under which [commonFields] files what it knows of a
    request, those of the request headers apart. *)
Definition commonKeys : list string :=
  [ "src_ip"; "src_port"; "dest_port"; "session"; "tags";
    "request.method"; "request.protocol"; "request.requestURI";
    "request.userAgent"; "request.body"; "request.bodySha256";
    "request.headers.sorted"; "request.headers.sortedSha256" ].

(** The line holds the text [v] under the name [k], name and text being
    what a reader gets back for them. *)
Definition holds (line : list (string * logger.Value)) (k v : string)
  : Prop :=
  (json.text k, logger.VString (json.text v)) ∈ line.

(** The line has no member of the name [k]. *)
Definition lacks (line : list (string * logger.Value)) (k : string) : Prop :=
  ∀ v, (k, v) ∉ line.

(** What every record says of the request it is about, [field k v]
    standing for "the text [v] is filed under the name [k]". *)
Definition describesRequest (l : logger.Logger) (m : logger.Machine)
    (r : http.Request) (port : string)
    (field : string → string → Prop) : Prop :=
  let srcIP := (remote r).1 in
  let keys := logger.sort_Strings (logger.headerKeys (http.Headers r)) in
  field "src_ip" srcIP
  ∧ field "src_port" (remote r).2
  ∧ field "dest_port" port
  ∧ field "session"
      (logger.Process (logger.NewSession m) (logger.Sessions l) srcIP
                      (logger.Now m)).1.1
  ∧ field "tags"
      match logger.EnrichCache l srcIP with
      | inl (Some info) => logger.KnownScanner info
      | _ => ""
      end
  ∧ field "request.method" (http.Method r)
  ∧ field "request.protocol" (http.Proto r)
  ∧ field "request.requestURI" (http.RequestURI r)
  ∧ field "request.userAgent" (http.Get "User-Agent" (http.Headers r))
  ∧ field "request.body" (http.Body r)
  ∧ field "request.bodySha256"
      (hex.EncodeToString (sha256.Sum256 (http.Body r)))
  ∧ field "request.headers.sorted" (strings.Join keys ",")
  ∧ field "request.headers.sortedSha256"
      (hex.EncodeToString (sha256.Sum256 (strings.Join keys ",")))
  ∧ ∀ h values,
      http.Headers r !! h = Some values →
      field ("request.headers." +:+ h) (strings.Join values ", ").

(** The names that the formatter writes itself, and those to which a
    field of one of these names moves. *)
Definition formatterKeys : list string :=
  [ "timestamp"; "msg"; "level"; "logrus_error";
    "fields.timestamp"; "fields.msg"; "fields.level";
    "fields.logrus_error" ].

(** A value that the encoder never refuses. *)
Definition plain (v : logger.Value) : Prop :=
  match v with logger.VFloat _ => False | _ => True end.

(** *** Sample inputs *)

Definition sampleRequest : http.Request :=
  {| http.Method := "GET";
     http.Proto := "HTTP/1.1";
     http.RequestURI := "/etc/passwd";
     http.URL := "/etc/passwd";
     http.RemoteAddr := "203.0.113.7:51234";
     http.Headers := {[ "User-Agent" := ["curl/8.5.0"];
                        "Accept" := ["*/*"] ]};
     http.Body := "" |}.

Definition sampleKey (r : http.Request) (port : string) : string :=
  port +:+ "_" +:+ http.URL r.

(** A case table that agrees with that of Unicode on the runes of the
    examples: the lower case of U+0130, the capital I with a dot above,
    is U+0069, and the other runes beyond ASCII that occur are their own
    lower case. *)
Definition sampleLower (r : Z) : Z := if (r =? 0x130)%Z then 0x69%Z else r.

(** The surroundings of a request: the answer of the backend, the
    failure of the store, and the headers ranged over in the order in
    which [map_to_list] lists them. *)
Definition answering (reply : string + error) (failure : option error)
  : Env :=
  {| llm := reply; store_failure := failure; range_headers := map_to_list |}.

Definition quoted (s : string) : string :=
  String (ascii_of_nat 34) s +:+ String (ascii_of_nat 34) "".

(** The payload [{"Headers":{"Server":"Apache"},"Body":"root:x:0:0"}]. *)
Definition samplePayload : string :=
  "{" +:+ quoted "Headers" +:+ ":{" +:+ quoted "Server" +:+ ":"
  +:+ quoted "Apache" +:+ "}," +:+ quoted "Body" +:+ ":"
  +:+ quoted "root:x:0:0" +:+ "}".

Definition sampleRecord : HTTPResponse :=
  {| Headers := {[ "Server" := "Apache" ]}; Body := "root:x:0:0" |}.

(** A decoder that agrees with [json.Unmarshal] on the two payloads used
    in the examples: [samplePayload] and the text [<html>]. *)
Definition sampleUnmarshal (data : string) : HTTPResponse + error :=
  if String.eqb data samplePayload then inl sampleRecord
  else inr "invalid character '<' looking for beginning of value".

Definition sampleSessions : logger.Sessionizer :=
  {| logger.sessions :=
       {[ "203.0.113.7" := {| logger.sessionID := "5f0c1c6e";
                              logger.lastSeen := 1000 |} ]};
     logger.window := 300 |}.

Definition sampleConfig : Config :=
  {| Ports := [ {| Port := 80; Protocol := "HTTP"; TLSProfile := "" |};
                {| Port := 443; Protocol := "TLS";
                   TLSProfile := "tls_profile1" |};
                {| Port := 8443; Protocol := "TLS";
                   TLSProfile := "tls_profile1" |} ];
     TLS := {[ "tls_profile1" := {| Certificate := "config/cert/cert.pem";
                                    Key := "" |} ]} |}.

(** A network on which every server serves until it is shut down. *)
Definition sampleNetwork : Network :=
  {| ListenAndServe := λ _, Some "http: Server closed";
     ListenAndServeTLS := λ _ _ _, Some "http: Server closed" |}.

Definition sampleLogger : logger.Logger :=
  logger.New
    {| llm.Provider := "ollama"; llm.Model := "gemma2";
       llm.Temperature := 0x3ff0000000000000 |}
    (λ _, inl (Some {| logger.KnownScanner := "shodan";
                       logger.Host := "scanner.example" |}))
    sampleSessions.

Definition sampleMachine : logger.Machine :=
  {| logger.Now := 1100;
     logger.EntryTime := 1101;
     logger.Hostname := inl "sensor-1";
     logger.NewString := "0b5c6f0e";
     logger.NewSession := "9d2a4c11" |}.

Definition sampleJSONResponse : llm.JSONResponse :=
  {| llm.Headers := {[ "Server" := "Apache" ]};
     llm.Body := "root:x:0:0" |}.

(** *** Further vocabulary *)

(** A string of decimal digits. *)
Fixpoint allDigits (s : string) : bool :=
  match s with
  | EmptyString => true
  | String c s' =>
      let n := nat_of_ascii c in
      (48 <=? n)%nat && (n <=? 57)%nat && allDigits s'
  end.

(** A handler starts on a connection whose peer is gone: every [Write]
    comes back with [gone]. *)
Definition startBroken (c : gmap string string) (gone : error) : World :=
  {| cache := c;
     client := {| http.header := ∅; http.status := None;
                  http.written := []; http.broken := Some gone |};
     trace := [] |}.

(** A configuration whose TLS profile is complete. *)
Definition completeConfig : Config :=
  {| Ports := [ {| Port := 80; Protocol := "HTTP"; TLSProfile := "" |};
                {| Port := 443; Protocol := "TLS";
                   TLSProfile := "tls_profile1" |} ];
     TLS := {[ "tls_profile1" := {| Certificate := "config/cert/cert.pem";
                                    Key := "config/cert/key.pem" |} ]} |}.

(** The names of the map literal of [commonFields]. *)
Definition fixedKeys : list string :=
  [ "src_ip"; "hostname"; "src_port"; "tags"; "sensorName"; "dest_port";
    "session"; "request.method"; "request.protocol"; "request.requestURI";
    "request.userAgent"; "request.body"; "request.bodySha256";
    "request.headers.sorted"; "request.headers.sortedSha256" ].

(* ===================================================================== *)
(** * Properties *)
(* ===================================================================== *)

(** ** The library models on small inputs *)

Example SplitHostPort_examples :
  net.SplitHostPort ":80" = inl ("", "80")
  ∧ net.SplitHostPort "203.0.113.7:51234" = inl ("203.0.113.7", "51234")
  ∧ net.SplitHostPort "[2001:db8::1]:443" = inl ("2001:db8::1", "443")
  ∧ net.SplitHostPort "203.0.113.7"
    = inr "address 203.0.113.7: missing port in address"
  ∧ net.SplitHostPort "2001:db8::1:443"
    = inr "address 2001:db8::1:443: too many colons in address".
Proof. vm_compute. repeat split. Qed.

Example strings_examples :
  strings.ToLower sampleLower "Content-Type" = "content-type"
  ∧ strings.Contains "x: emptyLLMResponse: y" "emptyLLMResponse" = true
  ∧ strings.Contains "timeout" "emptyLLMResponse" = false
  ∧ strings.ReplaceAll "a: b: a: c" "a: " "" = "b: c"
  ∧ strings.ReplaceAll "aaa" "aa" "b" = "ba"
  ∧ strings.Join ["Accept"; "Host"; "User-Agent"] "," = "Accept,Host,User-Agent"
  ∧ itoa 8443 = "8443" ∧ itoa 0 = "0".
Proof. vm_compute. repeat split. Qed.

(** Bytes that encode a rune decode to it; bytes that encode none, an
    overlong form or a surrogate among them, are an error of width 1. *)
Example utf8_examples :
  utf8.DecodeRuneInString "A" = (0x41, 1)%Z
  ∧ utf8.DecodeRuneInString (bytes [0xC4; 0xB0]%Z) = (0x130, 2)%Z
  ∧ utf8.DecodeRuneInString (bytes [0xE2; 0x82; 0xAC]%Z) = (0x20AC, 3)%Z
  ∧ utf8.DecodeRuneInString (bytes [0xF0; 0x9F; 0x98; 0x80]%Z)
    = (0x1F600, 4)%Z
  ∧ utf8.DecodeRuneInString (bytes [0xEF; 0xBF; 0xBD]%Z)
    = (utf8.RuneError, 3)%Z
  ∧ utf8.DecodeRuneInString (bytes [0xFF]%Z) = (utf8.RuneError, 1)%Z
  ∧ utf8.DecodeRuneInString (bytes [0xC3]%Z) = (utf8.RuneError, 1)%Z
  ∧ utf8.DecodeRuneInString (bytes [0xE0; 0x80; 0x80]%Z)
    = (utf8.RuneError, 1)%Z
  ∧ utf8.DecodeRuneInString (bytes [0xED; 0xA0; 0x80]%Z)
    = (utf8.RuneError, 1)%Z
  ∧ utf8.AppendRune 0x20AC = bytes [0xE2; 0x82; 0xAC]%Z
  ∧ utf8.AppendRune 0x1F600 = bytes [0xF0; 0x9F; 0x98; 0x80]%Z
  ∧ utf8.AppendRune 0xD800 = bytes [0xEF; 0xBF; 0xBD]%Z.
Proof. vm_compute. repeat split. Qed.

(** The lower case of a name with a rune beyond ASCII goes through the
    case table: with the capital I with a dot above for its [i], [Expires]
    is the excluded name [expires]. *)
Example ToLower_beyond_ascii :
  strings.ToLower sampleLower ("Exp" +:+ bytes [0xC4; 0xB0]%Z +:+ "res")
  = "expires"
  ∧ isExcludedHeader sampleLower ("Exp" +:+ bytes [0xC4; 0xB0]%Z +:+ "res")
    = true
  ∧ strings.ToLower sampleLower ("caf" +:+ bytes [0xC3; 0xA9]%Z)
    = "caf" +:+ bytes [0xC3; 0xA9]%Z
  ∧ strings.ToLower sampleLower ("A" +:+ bytes [0xFF]%Z)
    = "a" +:+ bytes [0xEF; 0xBF; 0xBD]%Z.
Proof. vm_compute. repeat split. Qed.

Example CanonicalMIMEHeaderKey_examples :
  http.CanonicalMIMEHeaderKey "x-custom" = "X-Custom"
  ∧ http.CanonicalMIMEHeaderKey "content-TYPE" = "Content-Type"
  ∧ http.CanonicalMIMEHeaderKey "X-Custom" = "X-Custom"
  ∧ http.CanonicalMIMEHeaderKey "x_y-z9" = "X_y-Z9"
  ∧ http.CanonicalMIMEHeaderKey "x custom" = "x custom"
  ∧ http.CanonicalMIMEHeaderKey "http/1.1" = "http/1.1"
  ∧ http.CanonicalMIMEHeaderKey ("x-caf" +:+ bytes [0xC3; 0xA9]%Z)
    = "x-caf" +:+ bytes [0xC3; 0xA9]%Z.
Proof. vm_compute. repeat split. Qed.

(** What is read back from the encoding of a string: the string itself
    when it is valid, and the replacement character for each byte that
    starts no rune otherwise. *)
Example json_examples :
  json.text "root:x:0:0" = "root:x:0:0"
  ∧ json.text ("caf" +:+ bytes [0xC3; 0xA9]%Z) = "caf" +:+ bytes [0xC3; 0xA9]%Z
  ∧ json.text ("a" +:+ bytes [0xFF; 0xFE]%Z +:+ "z")
    = "a" +:+ bytes [0xEF; 0xBF; 0xBD; 0xEF; 0xBF; 0xBD]%Z +:+ "z"
  ∧ json.text (bytes [0xE2; 0x82]%Z)
    = bytes [0xEF; 0xBF; 0xBD; 0xEF; 0xBF; 0xBD]%Z
  ∧ json.finite 0x3ff0000000000000 = true
  ∧ json.finite 0x7ff0000000000000 = false
  ∧ json.finite 0xfff0000000000000 = false
  ∧ json.finite 0x7ff8000000000001 = false.
Proof. vm_compute. repeat split. Qed.

(** ** The digest agrees with the published test vectors *)

Example sha256_empty :
  hex.EncodeToString (sha256.Sum256 "")
  = "e3b0c44298fc1c149afbf4c8996fb92427ae41e4649b934ca495991b7852b855".
Proof. vm_compute. reflexivity. Qed.

Example sha256_abc :
  hex.EncodeToString (sha256.Sum256 "abc")
  = "ba7816bf8f01cfea414140de5dae2223b00361a396177a9cb410ff61f20015ad".
Proof. vm_compute. reflexivity. Qed.

Example sha256_constants :
  length sha256.K = 64%nat
  ∧ head sha256.K = Some 0x428a2f98%Z
  ∧ last sha256.K = Some 0xc67178f2%Z
  ∧ head sha256.init = Some 0x6a09e667%Z
  ∧ last sha256.init = Some 0x5be0cd19%Z.
Proof. vm_compute. repeat split. Qed.

Example sha256_56 :
  hex.EncodeToString (sha256.Sum256 "aaaaaaaaaaaaaaaaaaaaaaaaaaaaaaaaaaaaaaaaaaaaaaaaaaaaaaaa")
  = "b35439a4ac6f0948b6d6f9e3c6af0f5f590ce20f1bde7090ef7970686ec6738a".
Proof. vm_compute. reflexivity. Qed.

(** ** Header filtering *)

Lemma lower_byte_not_upper (c : ascii) :
  ((65 <=? byteOf c)%Z && (byteOf c <=? 90)%Z) = false →
  strings.lower_byte c = c.
Proof. unfold strings.lower_byte. by intros ->. Qed.

Lemma mapBytes_no_upper (s : string) :
  strings.hasUpper s = false → asciiLower s = s.
Proof.
  unfold asciiLower. induction s as [|c s IH]; [done|].
  cbn [strings.hasUpper strings.mapBytes].
  intros [Hc Hs]%orb_false_iff.
  by rewrite lower_byte_not_upper, IH.
Qed.

Lemma canonicalize_cons (upper : bool) (c : ascii) (a : string) :
  http.canonicalize upper (String c a)
  = String (http.canonByte upper c)
           (http.canonicalize (Ascii.eqb (http.canonByte upper c) "-") a).
Proof. reflexivity. Qed.

Lemma canonByte_lower (upper : bool) (c : ascii) :
  strings.lower_byte (http.canonByte upper c) = strings.lower_byte c
  ∧ (http.validHeaderFieldByte c = true →
     (byteOf c <? utf8.RuneSelf)%Z = true
     ∧ (byteOf (http.canonByte upper c) <? utf8.RuneSelf)%Z = true).
Proof.
  destruct c as [b0 b1 b2 b3 b4 b5 b6 b7];
    destruct b0, b1, b2, b3, b4, b5, b6, b7, upper; vm_compute;
    (split; [reflexivity|]); intros H; (discriminate H || by split).
Qed.

Lemma canonicalize_lower (a : string) :
  ∀ upper,
    forallb http.validHeaderFieldByte (list_ascii_of_string a) = true →
    asciiLower (http.canonicalize upper a) = asciiLower a
    ∧ strings.isASCII (http.canonicalize upper a) = true
    ∧ strings.isASCII a = true.
Proof.
  induction a as [|c a IH]; intros upper Hvalid; [done|].
  cbn [list_ascii_of_string forallb] in Hvalid.
  apply andb_true_iff in Hvalid as [Hc Ha].
  rewrite canonicalize_cons.
  destruct (IH (Ascii.eqb (http.canonByte upper c) "-") Ha) as (Hlow & Hcan & Hasc).
  destruct (canonByte_lower upper c) as [Hbyte Hsmall].
  destruct (Hsmall Hc) as [Hc1 Hc2].
  unfold asciiLower in *. cbn [strings.mapBytes strings.isASCII].
  by rewrite Hbyte, Hlow, Hcan, Hasc, Hc1, Hc2.
Qed.

Lemma canonicalMIMEHeaderKey_cases (a : string) :
  http.canonicalMIMEHeaderKey a = a
  ∨ (forallb http.validHeaderFieldByte (list_ascii_of_string a) = true
     ∧ http.canonicalMIMEHeaderKey a = http.canonicalize true a).
Proof.
  unfold http.canonicalMIMEHeaderKey.
  destruct (existsb _ (list_ascii_of_string a)) eqn:Hother; [by left|].
  destruct (existsb (λ c, Ascii.eqb c " ") (list_ascii_of_string a))
    eqn:Hspace; [by left|].
  right. split; [|done].
  induction (list_ascii_of_string a) as [|c l IH]; [done|].
  cbn [existsb forallb] in *.
  apply orb_false_iff in Hother as [Hc Hother].
  apply orb_false_iff in Hspace as [Hs Hspace].
  rewrite IH by done. rewrite Hs in Hc.
  by destruct (http.validHeaderFieldByte c).
Qed.

Lemma quickCheck_cases (s rest : string) :
  ∀ upper,
    http.quickCheck s upper rest = s
    ∨ http.quickCheck s upper rest = http.canonicalMIMEHeaderKey s.
Proof.
  induction rest as [|c rest IH]; intros upper; cbn [http.quickCheck];
    [by left|].
  repeat case_match; auto.
Qed.

(** A key is spelled canonically as it is, or it is a token, whose
    letters alone change, in case. *)
Lemma CanonicalMIMEHeaderKey_cases (s : string) :
  http.CanonicalMIMEHeaderKey s = s
  ∨ (forallb http.validHeaderFieldByte (list_ascii_of_string s) = true
     ∧ http.CanonicalMIMEHeaderKey s = http.canonicalize true s).
Proof.
  unfold http.CanonicalMIMEHeaderKey.
  destruct (quickCheck_cases s s true) as [-> | ->]; [by left|].
  apply canonicalMIMEHeaderKey_cases.
Qed.

Section Filtering.

Variable lowerCase : Z → Z.

(** On a string of ASCII bytes [strings.ToLower] shifts the letters and
    consults no table. *)
Lemma ToLower_ascii (s : string) :
  strings.isASCII s = true → strings.ToLower lowerCase s = asciiLower s.
Proof.
  intros Hs. unfold strings.ToLower. rewrite Hs.
  destruct (strings.hasUpper s) eqn:Hup; [done|].
  by rewrite mapBytes_no_upper.
Qed.

Lemma isExcludedHeader_spec (key : string) :
  isExcludedHeader lowerCase key = true
  ↔ strings.ToLower lowerCase key ∈ excludedNames.
Proof.
  unfold isExcludedHeader, excludedNames.
  generalize (strings.ToLower lowerCase key). intros k.
  destruct (ignoreHeaders !! k) as [b|] eqn:E; simpl.
  - apply elem_of_list_to_map in E; [|by apply (bool_decide_unpack _); vm_compute].
    rewrite !elem_of_cons in E. rewrite !elem_of_cons.
    destruct_or!; simplify_eq; try (by apply elem_of_nil in E);
      (split; [intros _|done]); solve [repeat (first [by left | right])].
  - split; [done|]. intros Hin.
    apply not_elem_of_list_to_map in E. exfalso. apply E.
    rewrite !elem_of_cons in Hin. simpl. rewrite !elem_of_cons.
    destruct_or!; simplify_eq; try (by apply elem_of_nil in Hin);
      solve [repeat (first [by left | right])].
Qed.

(** The canonical spelling of a name is excluded exactly when the name
    is. *)
Lemma ToLower_Canonical (key : string) :
  strings.ToLower lowerCase (http.CanonicalMIMEHeaderKey key)
  = strings.ToLower lowerCase key.
Proof.
  destruct (CanonicalMIMEHeaderKey_cases key) as [-> | [Hvalid ->]]; [done|].
  destruct (canonicalize_lower key true Hvalid) as (Hlow & Hcan & Hasc).
  by rewrite !ToLower_ascii.
Qed.

Lemma isExcludedHeader_Canonical (key : string) :
  isExcludedHeader lowerCase (http.CanonicalMIMEHeaderKey key)
  = isExcludedHeader lowerCase key.
Proof. unfold isExcludedHeader. by rewrite ToLower_Canonical. Qed.

Lemma setHeaders_snoc (entries : list (string * string))
    (entry : string * string) (h : http.Header) :
  setHeaders lowerCase (entries ++ [entry]) h
  = if isExcludedHeader lowerCase entry.1 then setHeaders lowerCase entries h
    else http.Set_ entry.1 entry.2 (setHeaders lowerCase entries h).
Proof. unfold setHeaders. by rewrite foldl_snoc. Qed.

Lemma survivor_snoc (entries : list (string * string))
    (entry : string * string) (name : string) :
  survivor lowerCase (entries ++ [entry]) name
  = if decide (http.CanonicalMIMEHeaderKey entry.1 = name
               ∧ isExcludedHeader lowerCase entry.1 = false)
    then Some entry.2
    else survivor lowerCase entries name.
Proof.
  unfold survivor. rewrite filter_app, filter_singleton by exact [].
  case_decide; [by rewrite last_snoc|by rewrite app_nil_r].
Qed.

(** After the header loop, a name holds the value of the last entry that
    was set under it, or what it held before. *)
Lemma setHeaders_lookup (entries : list (string * string))
    (h : http.Header) (name : string) :
  setHeaders lowerCase entries h !! name
  = match survivor lowerCase entries name with
    | Some value => Some [value]
    | None => h !! name
    end.
Proof.
  induction entries as [|entry entries IH] using rev_ind; [done|].
  rewrite setHeaders_snoc, survivor_snoc.
  destruct (isExcludedHeader lowerCase entry.1) eqn:Hex.
  - rewrite decide_False by (intros [_ ?]; congruence). exact IH.
  - unfold http.Set_.
    destruct (decide (http.CanonicalMIMEHeaderKey entry.1 = name)) as [<-|Hne].
    + by rewrite decide_True, lookup_insert_eq.
    + rewrite decide_False by (by intros [? _]).
      by rewrite lookup_insert_ne.
Qed.

Lemma survivor_Some (entries : list (string * string)) (name value : string) :
  survivor lowerCase entries name = Some value →
  ∃ key, (key, value) ∈ entries
         ∧ http.CanonicalMIMEHeaderKey key = name
         ∧ isExcludedHeader lowerCase key = false.
Proof.
  unfold survivor. intros H. apply fmap_Some in H as ([key v] & Hlast & ->).
  apply last_Some_elem_of, list_elem_of_filter in Hlast as [[? ?] ?].
  by exists key.
Qed.

Lemma survivor_None (entries : list (string * string)) (name : string) :
  (∀ key value,
     (key, value) ∈ entries → http.CanonicalMIMEHeaderKey key = name →
     isExcludedHeader lowerCase key = true) →
  survivor lowerCase entries name = None.
Proof.
  intros Hall. destruct (survivor lowerCase entries name) as [value|] eqn:E;
    [|done].
  apply survivor_Some in E as (key & Hin & Hname & Hex).
  rewrite (Hall key value Hin Hname) in Hex. discriminate.
Qed.

Lemma survivor_is_Some (entries : list (string * string))
    (key value : string) :
  (key, value) ∈ entries → isExcludedHeader lowerCase key = false →
  is_Some (survivor lowerCase entries (http.CanonicalMIMEHeaderKey key)).
Proof.
  intros Hin Hex. unfold survivor. apply fmap_is_Some, last_is_Some.
  intros Hnil. apply (filter_nil_not_elem_of _ _ (key, value)) in Hnil;
    [done|by split].
Qed.

(** The one entry of its canonical name that is not excluded is the one
    whose value is left. *)
Lemma survivor_only (entries : list (string * string)) (key value : string) :
  (key, value) ∈ entries → isExcludedHeader lowerCase key = false →
  (∀ key' value',
     (key', value') ∈ entries →
     http.CanonicalMIMEHeaderKey key' = http.CanonicalMIMEHeaderKey key →
     isExcludedHeader lowerCase key' = false → value' = value) →
  survivor lowerCase entries (http.CanonicalMIMEHeaderKey key) = Some value.
Proof.
  intros Hin Hex Honly.
  destruct (survivor_is_Some entries key value Hin Hex) as [v Hv].
  rewrite Hv. f_equal.
  apply survivor_Some in Hv as (key' & Hin' & Hname & Hex').
  by apply (Honly key').
Qed.

Lemma survivor_None_inv (entries : list (string * string))
    (name key value : string) :
  survivor lowerCase entries name = None →
  (key, value) ∈ entries → http.CanonicalMIMEHeaderKey key = name →
  isExcludedHeader lowerCase key = true.
Proof.
  intros Hnone Hin <-.
  destruct (isExcludedHeader lowerCase key) eqn:Hex; [done|].
  destruct (survivor_is_Some entries key value Hin Hex) as [v Hv].
  congruence.
Qed.

(** When no two names of the record are spelled alike canonically, the
    order in which the record is ranged over does not show. *)
Lemma setHeaders_distinct (headers : gmap string string)
    (entries entries' : list (string * string)) (h : http.Header) :
  entries ≡ₚ map_to_list headers →
  entries' ≡ₚ map_to_list headers →
  distinctNames headers →
  setHeaders lowerCase entries h = setHeaders lowerCase entries' h.
Proof.
  intros Hperm Hperm' Hdistinct. apply map_eq. intros name.
  rewrite !setHeaders_lookup.
  destruct (survivor lowerCase entries name) as [value|] eqn:E.
  - apply survivor_Some in E as (key & Hin & <- & Hex).
    rewrite (survivor_only entries' key value); [done| |done|].
    + by rewrite Hperm', <- Hperm.
    + intros key' value' Hin' Hname _.
      rewrite Hperm in Hin. rewrite Hperm' in Hin'.
      apply elem_of_map_to_list in Hin, Hin'.
      rewrite (Hdistinct key' key) in Hin' by (by eexists || done).
      congruence.
  - rewrite survivor_None; [done|].
    intros key value Hin Hname.
    apply (survivor_None_inv entries name key value); [done| |done].
    by rewrite Hperm, <- Hperm'.
Qed.

Lemma sendResponse_client (env : Env) (response : HTTPResponse) (σ : World) :
  client (exec (sendResponse lowerCase env response) σ)
  = (http.Write (Body response)
       (http.with_header
          (setHeaders lowerCase (range_headers env (Headers response)))
          (client σ))).1.
Proof.
  unfold sendResponse, exec, mbind, M_bind, on_client; simpl.
  by destruct (http.broken (client σ)).
Qed.

Lemma sendResponse_header_lookup (env : Env) (response : HTTPResponse)
    (σ : World) (name : string) :
  http.header (client (exec (sendResponse lowerCase env response) σ)) !! name
  = match survivor lowerCase (range_headers env (Headers response)) name with
    | Some value => Some [value]
    | None => http.header (client σ) !! name
    end.
Proof. rewrite sendResponse_client; simpl. apply setHeaders_lookup. Qed.

Lemma rangesOver_elem_of (env : Env) (headers : gmap string string)
    (key value : string) :
  rangesOver env headers →
  (key, value) ∈ range_headers env headers ↔ headers !! key = Some value.
Proof. intros Hperm. by rewrite Hperm, elem_of_map_to_list. Qed.

(** A record of which one header only is not excluded sends that one
    header, under its canonical name. *)
Lemma sendResponse_one_header (env : Env) (headers : gmap string string)
    (body key value : string) (c : gmap string string) (tr : list Action) :
  rangesOver env headers →
  headers !! key = Some value →
  isExcludedHeader lowerCase key = false →
  (∀ key', is_Some (headers !! key') → key' ≠ key →
           isExcludedHeader lowerCase key' = true) →
  http.header
    (client (exec (sendResponse lowerCase env
                     {| Headers := headers; Body := body |})
                  {| cache := c; client := http.fresh; trace := tr |}))
  = {[ http.CanonicalMIMEHeaderKey key := [value] ]}.
Proof.
  intros Hperm Hkey Hex Hothers. apply map_eq. intros name.
  rewrite sendResponse_header_lookup; simpl.
  destruct (decide (name = http.CanonicalMIMEHeaderKey key)) as [->|Hne].
  - rewrite lookup_singleton_eq.
    rewrite (survivor_only _ key value); [done| |done|].
    + by apply rangesOver_elem_of.
    + intros key' value' Hin Hname Hex'.
      apply rangesOver_elem_of in Hin; [|done].
      destruct (decide (key' = key)) as [->|Hdiff]; [congruence|].
      rewrite Hothers in Hex'; [done|by exists value'|done].
  - rewrite lookup_singleton_ne by done.
    rewrite survivor_None; [done|].
    intros key' value' Hin Hname.
    apply rangesOver_elem_of in Hin; [|done].
    destruct (decide (key' = key)) as [->|Hdiff]; [by destruct Hne|].
    apply Hothers; [by exists value'|done].
Qed.

End Filtering.

Ltac one_of_three :=
  match goal with
  | H : is_Some (_ !! _) |- _ =>
      let v := fresh "v" in
      destruct H as [v H];
      repeat (apply lookup_insert_Some in H as [[<- _]|[_ H]];
              [try done; vm_compute; reflexivity|]);
      apply lookup_singleton_Some in H as [<- _];
      try done; vm_compute; reflexivity
  end.

(** C2, as amended. [sendResponse] never sets a header whose lower-cased
    name is in the exclusion set, and hands every other header of the
    record to [Header.Set] with its value unchanged: the writer keeps it
    under the canonical spelling of its name, so that of the headers
    whose names are spelled alike canonically the last one ranged over is
    left, and a header is left with its own value when no other header
    of the record shares its canonical name. The body is handed to
    [Write] unchanged. Of [Content-Type], [Date] and [X-Custom], in any
    spelling of the first two and any order, only [X-Custom] reaches the
    writer. *)
Theorem sendResponse_forwards_only_unlisted_headers :
  ∀ (lowerCase : Z → Z) (env : Env) (response : HTTPResponse) (σ : World),
    let entries := range_headers env (Headers response) in
    let canonical := http.CanonicalMIMEHeaderKey in
    let w := client σ in
    let w' := client (exec (sendResponse lowerCase env response) σ) in
    (∀ name,
       http.header w' !! name
       = match survivor lowerCase entries name with
         | Some value => Some [value]
         | None => http.header w !! name
         end)
    ∧ (∀ key,
         isExcludedHeader lowerCase key = true
         ↔ strings.ToLower lowerCase key ∈ excludedNames)
    ∧ (∀ key,
         strings.isASCII key = true →
         strings.ToLower lowerCase key = asciiLower key)
    ∧ (∀ name,
         isExcludedHeader lowerCase name = true →
         http.header w' !! name = http.header w !! name)
    ∧ (rangesOver env (Headers response) →
       ∀ key value,
         Headers response !! key = Some value →
         isExcludedHeader lowerCase key = false →
         (∃ key' value',
            Headers response !! key' = Some value'
            ∧ canonical key' = canonical key
            ∧ http.header w' !! canonical key = Some [value'])
         ∧ ((∀ key', is_Some (Headers response !! key') →
                     canonical key' = canonical key → key' = key) →
            http.header w' !! canonical key = Some [value]))
    ∧ (rangesOver env (Headers response) →
       ∀ name,
         http.header w' !! name ≠ http.header w !! name →
         ∃ key value,
           Headers response !! key = Some value
           ∧ isExcludedHeader lowerCase key = false
           ∧ canonical key = name
           ∧ http.header w' !! name = Some [value])
    ∧ http.written w' = http.written w ++ [Body response]
    ∧ (∀ env' contentType date custom body c tr,
         rangesOver env' {[ "Content-Type" := contentType;
                            "Date" := date;
                            "X-Custom" := custom ]} →
         http.header
           (client
              (exec (sendResponse lowerCase env'
                       {| Headers := {[ "Content-Type" := contentType;
                                        "Date" := date;
                                        "X-Custom" := custom ]};
                          Body := body |})
                    {| cache := c; client := http.fresh; trace := tr |}))
         = {[ "X-Custom" := [custom] ]})
    ∧ (∀ env' contentType date custom body c tr,
         rangesOver env' {[ "CONTENT-TYPE" := contentType;
                            "date" := date;
                            "X-Custom" := custom ]} →
         http.header
           (client
              (exec (sendResponse lowerCase env'
                       {| Headers := {[ "CONTENT-TYPE" := contentType;
                                        "date" := date;
                                        "X-Custom" := custom ]};
                          Body := body |})
                    {| cache := c; client := http.fresh; trace := tr |}))
         = {[ "X-Custom" := [custom] ]}).
Proof.
  intros lowerCase env response σ entries canonical w w'.
  subst entries canonical w w'.
  split_and!.
  - apply sendResponse_header_lookup.
  - apply isExcludedHeader_spec.
  - apply ToLower_ascii.
  - intros name Hex. rewrite sendResponse_header_lookup.
    destruct (survivor _ _ name) as [value|] eqn:E; [|done].
    apply survivor_Some in E as (key & _ & <- & Hkey).
    by rewrite isExcludedHeader_Canonical, Hkey in Hex.
  - intros Hperm key value Hkey Hex.
    assert (Hin : (key, value) ∈ range_headers env (Headers response))
      by by apply rangesOver_elem_of.
    split.
    + destruct (survivor_is_Some lowerCase _ key value Hin Hex) as [v Hv].
      pose proof Hv as Hv'.
      apply survivor_Some in Hv' as (key' & Hin' & Hname & _).
      exists key', v.
      split_and!; [by apply (rangesOver_elem_of env _ _ _ Hperm)|done|].
      by rewrite sendResponse_header_lookup, Hv.
    + intros Honly. rewrite sendResponse_header_lookup.
      rewrite (survivor_only lowerCase _ key value); [done..|].
      intros key' value' Hin' Hname _.
      apply rangesOver_elem_of in Hin'; [|done].
      rewrite (Honly key') in Hin' by (by eexists || done). congruence.
  - intros Hperm name Hchanged.
    rewrite sendResponse_header_lookup in Hchanged.
    destruct (survivor _ _ name) as [value|] eqn:E; [|done].
    pose proof E as E'.
    apply survivor_Some in E' as (key & Hin & Hname & Hex).
    exists key, value.
    split_and!; [by apply (rangesOver_elem_of env _ _ _ Hperm)|done..|].
    by rewrite sendResponse_header_lookup, E.
  - rewrite sendResponse_client. reflexivity.
  - intros env' contentType date custom body c tr Hperm.
    apply (sendResponse_one_header lowerCase env' _ body "X-Custom" custom);
      [done|by simplify_map_eq|vm_compute; reflexivity|].
    intros key' Hsome Hne. one_of_three.
  - intros env' contentType date custom body c tr Hperm.
    apply (sendResponse_one_header lowerCase env' _ body "X-Custom" custom);
      [done|by simplify_map_eq|vm_compute; reflexivity|].
    intros key' Hsome Hne. one_of_three.
Qed.

Lemma sendResponse_forwards_only_unlisted_headers_witness :
  let w' := client (exec (sendResponse sampleLower
                            (answering (inl samplePayload) None)
                            {| Headers := {[ "server" := "Apache";
                                             "Date" := "today" ]};
                               Body := "root:x:0:0" |})
                         (start ∅)) in
  http.header w' !! "Server" = Some ["Apache"]
  ∧ http.header w' !! "Date" = None.
Proof.
  intros w'.
  destruct (sendResponse_forwards_only_unlisted_headers sampleLower
              (answering (inl samplePayload) None)
              {| Headers := {[ "server" := "Apache"; "Date" := "today" ]};
                 Body := "root:x:0:0" |}
              (start ∅))
    as (_ & _ & _ & Hexcluded & Hset & _).
  split.
  - apply (Hset (reflexivity _) "server" "Apache");
      [vm_compute; reflexivity..|].
    intros key' [v Hv] Hname. cbn [Headers] in Hv.
    apply lookup_insert_Some in Hv as [[<- _]|[_ Hv]]; [reflexivity|].
    apply lookup_singleton_Some in Hv as [<- _]. discriminate Hname.
  - unfold w'. rewrite (Hexcluded "Date"); reflexivity.
Defined.

(** C2, as stated, fails on the name of a header: [x-custom] is not kept
    under the name that the record gives it but under [X-Custom], and of
    two headers whose names differ in case only one is kept, which one
    depending on the order in which the record is ranged over. *)
Lemma sendResponse_respells_header_names :
  let sent_in (entries : list (string * string)) :=
    http.header
      (client (exec (sendResponse sampleLower
                       {| llm := inl samplePayload; store_failure := None;
                          range_headers := λ _, entries |}
                       {| Headers := list_to_map entries;
                          Body := "" |})
                    (start ∅))) in
  sent_in [("x-custom", "1")] !! "x-custom" = None
  ∧ sent_in [("x-custom", "1")] !! "X-Custom" = Some ["1"]
  ∧ sent_in [("X-Trace", "1"); ("x-trace", "2")] !! "X-Trace" = Some ["2"]
  ∧ sent_in [("X-Trace", "1"); ("x-trace", "2")] !! "x-trace" = None
  ∧ sent_in [("x-trace", "2"); ("X-Trace", "1")] !! "X-Trace" = Some ["1"]
  ∧ sent_in [("x-trace", "2"); ("X-Trace", "1")] !! "x-trace" = None.
Proof. vm_compute. repeat split. Qed.

(** ** Error classification *)

Section StringFacts.

Import strings.

Lemma app_cons (a : ascii) (p s : string) :
  String a p +:+ s = String a (p +:+ s).
Proof. reflexivity. Qed.

Lemma append_assoc (p q s : string) : (p +:+ q) +:+ s = p +:+ q +:+ s.
Proof. induction p as [|a p IH]; [done|]. by rewrite !app_cons, IH. Qed.

Lemma HasPrefix_app (p s : string) : HasPrefix (p +:+ s) p = true.
Proof.
  induction p as [|a p IH]; [by destruct s|].
  rewrite app_cons. simpl. by rewrite Ascii.eqb_refl.
Qed.

Lemma replaceFrom_skip (old new p s : string) :
  replaceFrom old new (String.length p) (p +:+ s) = replaceFrom old new 0 s.
Proof.
  induction p as [|a p IH]; [done|].
  rewrite app_cons. simpl. apply IH.
Qed.

(** A leading occurrence of [old] is replaced and the scan goes on
    behind it. *)
Lemma ReplaceAll_prefix (old new rest : string) :
  old ≠ "" → old ≠ new →
  ReplaceAll (old +:+ rest) old new = new +:+ ReplaceAll rest old new.
Proof.
  intros Hne Hdiff. unfold ReplaceAll.
  destruct (String.eqb_spec old new) as [|_]; [done|].
  destruct old as [|a old]; [done|].
  rewrite app_cons. cbn [replaceFrom].
  rewrite <- app_cons, HasPrefix_app. simpl String.length.
  replace (S (String.length old) - 1)%nat with (String.length old) by lia.
  by rewrite replaceFrom_skip.
Qed.

Lemma replaceFrom_absent (old new s : string) :
  Contains s old = false → replaceFrom old new 0 s = s.
Proof.
  induction s as [|c s IH]; [done|].
  intros H. cbn [Contains] in H. apply orb_false_iff in H as [Hp Hc].
  cbn [replaceFrom]. rewrite Hp. f_equal. by apply IH.
Qed.

(** A string without an occurrence of [old] is left as it is. *)
Lemma ReplaceAll_absent (s old new : string) :
  old ≠ "" → Contains s old = false → ReplaceAll s old new = s.
Proof.
  intros Hne H. unfold ReplaceAll.
  destruct (String.eqb old new); [done|].
  destruct old; [done|]. by apply replaceFrom_absent.
Qed.

End StringFacts.

Lemma classOf_nonempty (errMsg : string) : classOf errMsg +:+ ": " ≠ "".
Proof. unfold classOf. by repeat case_match. Qed.

Lemma errorFields_type (err resp : string) :
  logger.errorFields err resp !! "type"
  = Some (logger.VString (classOf err)).
Proof.
  unfold logger.errorFields, classOf.
  repeat case_match; simplify_eq; by simplify_map_eq.
Qed.

Lemma errorFields_msg (err resp : string) :
  logger.errorFields err resp !! "msg"
  = Some (logger.VString
            (strings.ReplaceAll err (classOf err +:+ ": ") "")).
Proof.
  unfold logger.errorFields, classOf.
  repeat case_match; simplify_eq; by simplify_map_eq.
Qed.

Lemma errorFields_invalidResponse (err resp : string) :
  logger.errorFields err resp !! "invalidResponse"
  = Some (logger.VString resp).
Proof.
  unfold logger.errorFields. repeat case_match; by simplify_map_eq.
Qed.

(** C3. [errorFields] looks for the invalid-JSON marker first, then
    for the empty-response marker, and falls back to the generic class;
    it stores the class, the message with every occurrence of
    ["<class>: "] removed, so that a message that starts with this prefix
    is stored without it, and the raw response text. *)
Theorem errorFields_classifies :
  ∀ (err resp : string),
    let fields := logger.errorFields err resp in
    dom fields = {[ "type"; "msg"; "invalidResponse" ]}
    ∧ fields !! "type" = Some (logger.VString (classOf err))
    ∧ fields !! "msg"
      = Some (logger.VString
                (strings.ReplaceAll err (classOf err +:+ ": ") ""))
    ∧ fields !! "invalidResponse" = Some (logger.VString resp)
    ∧ (strings.Contains err "invalidJSONResponse" = true →
       fields !! "type" = Some (logger.VString "invalidJSONResponse"))
    ∧ (strings.Contains err "invalidJSONResponse" = false →
       strings.Contains err "emptyLLMResponse" = true →
       fields !! "type" = Some (logger.VString "emptyLLMResponse"))
    ∧ (strings.Contains err "invalidJSONResponse" = false →
       strings.Contains err "emptyLLMResponse" = false →
       fields !! "type" = Some (logger.VString "contentGenerationError"))
    ∧ (∀ rest,
         err = classOf err +:+ ": " +:+ rest →
         fields !! "msg"
         = Some (logger.VString
                   (strings.ReplaceAll rest (classOf err +:+ ": ") ""))
         ∧ (strings.Contains rest (classOf err +:+ ": ") = false →
            fields !! "msg" = Some (logger.VString rest))).
Proof.
  intros err resp fields.
  assert (Hty : fields !! "type" = Some (logger.VString (classOf err)))
    by apply errorFields_type.
  assert (Hmsg : fields !! "msg"
                 = Some (logger.VString
                           (strings.ReplaceAll err (classOf err +:+ ": ") "")))
    by apply errorFields_msg.
  split_and!; try done.
  - subst fields. unfold logger.errorFields.
    repeat case_match; rewrite !dom_insert_L, dom_empty_L; set_solver.
  - apply errorFields_invalidResponse.
  - intros H. rewrite Hty. unfold classOf, logger.errorInvalidJSONResponse.
    by rewrite H.
  - intros H1 H2. rewrite Hty.
    unfold classOf, logger.errorInvalidJSONResponse,
      logger.errorEmptyLLMResponse.
    by rewrite H1, H2.
  - intros H1 H2. rewrite Hty.
    unfold classOf, logger.errorInvalidJSONResponse,
      logger.errorEmptyLLMResponse.
    by rewrite H1, H2.
  - intros rest Herr.
    assert (Hstrip : strings.ReplaceAll err (classOf err +:+ ": ") ""
                     = strings.ReplaceAll rest (classOf err +:+ ": ") "").
    { rewrite Herr at 1.
      rewrite <- (append_assoc (classOf err) ": " rest).
      rewrite ReplaceAll_prefix; [done|apply classOf_nonempty..]. }
    split.
    + by rewrite Hmsg, Hstrip.
    + intros Habs. rewrite Hmsg, Hstrip.
      by rewrite ReplaceAll_absent by (done || apply classOf_nonempty).
Qed.

Lemma errorFields_classifies_witness :
  logger.errorFields "invalidJSONResponse: unexpected end of JSON input"
                     "{" !! "type"
  = Some (logger.VString "invalidJSONResponse")
  ∧ logger.errorFields "invalidJSONResponse: unexpected end of JSON input"
                       "{" !! "msg"
    = Some (logger.VString "unexpected end of JSON input")
  ∧ logger.errorFields "connection refused" "" !! "type"
    = Some (logger.VString "contentGenerationError").
Proof.
  pose proof (errorFields_classifies
                "invalidJSONResponse: unexpected end of JSON input" "{")
    as (_ & _ & _ & _ & Hty & _ & _ & Hstrip).
  pose proof (errorFields_classifies "connection refused" "")
    as (_ & _ & _ & _ & _ & _ & Hgen & _).
  split_and!.
  - apply Hty. reflexivity.
  - apply (Hstrip "unexpected end of JSON input"); reflexivity.
  - apply Hgen; reflexivity.
Defined.

(** ** The dispatch pipeline *)

Ltac run_handler :=
  unfold handleRequest, sendResponse, internalServerError, checkCache,
    storeResponse, generateLLMResponse, writeLog, makeEvent, logf, emit,
    on_client, exec, start, destPort, mbind, M_bind, mret, M_ret; simpl.

(** C1, as amended. One request makes exactly one write to the client,
    at most one write to the cache and at most one call of the generation
    backend, and sends at most one record: the one decoded from the cached
    bytes on a hit, without any call of the backend or write to the cache,
    the one decoded from the freshly generated bytes on a miss, and none
    when generation or decoding fails. *)
Theorem handleRequest_sends_at_most_one_record :
  ∀ (lowerCase : Z → Z) (getCacheKey : http.Request → string → string)
    (Unmarshal : string → HTTPResponse + error)
    (env : Env) (r : http.Request) (serverAddr : string)
    (c : gmap string string),
    let σ' := exec (handleRequest lowerCase getCacheKey Unmarshal env r
                       serverAddr)
                   (start c) in
    let tr := trace σ' in
    let key := getCacheKey r (destPort serverAddr) in
    let decoded (bytes : string) :=
      match Unmarshal bytes with inl record => [record] | inr _ => [] end in
    length (http.written (client σ')) = 1%nat
    ∧ (length (stored tr) ≤ 1)%nat
    ∧ (length (generated tr) ≤ 1)%nat
    ∧ (length (sent tr) ≤ 1)%nat
    ∧ match c !! key with
      | Some bytes =>
          generated tr = [] ∧ stored tr = [] ∧ sent tr = decoded bytes
      | None =>
          generated tr = [r]
          ∧ match llm env with
            | inl bytes => stored tr = [(key, bytes)] ∧ sent tr = decoded bytes
            | inr _ => stored tr = [] ∧ sent tr = []
            end
      end.
Proof.
  intros lowerCase getCacheKey Unmarshal env r serverAddr c σ' tr key decoded.
  subst σ' tr key decoded. run_handler.
  destruct (net.SplitHostPort serverAddr) as [[host port]|?]; simpl.
  all: destruct (c !! _) as [bytes|] eqn:Hc; simpl.
  all: try destruct (llm env) as [bytes|?]; simpl.
  all: try destruct (store_failure env); simpl.
  all: try destruct (Unmarshal bytes); simpl.
  all: repeat split; auto.
Qed.

(** C1, as stated, fails where generation fails: no record is sent. *)
Lemma handleRequest_failed_generation_sends_no_record :
  length (sent (trace (exec (handleRequest sampleLower sampleKey sampleUnmarshal
                               (answering (inr "connection refused") None)
                               sampleRequest ":80")
                            (start ∅)))) ≠ 1%nat.
Proof. vm_compute. discriminate. Qed.

(** What one request does to the cache, and how a hit ends: a hit leaves
    the cache alone and calls neither the backend nor the store, and it
    ends in a 500 without a record when the cached bytes do not decode; a
    miss adds the generated bytes under the key of the request unless the
    store fails. *)
Lemma handleRequest_cases
    (lowerCase : Z → Z) (getCacheKey : http.Request → string → string)
    (Unmarshal : string → HTTPResponse + error)
    (env : Env) (r : http.Request) (serverAddr : string)
    (c : gmap string string) :
  let σ' := exec (handleRequest lowerCase getCacheKey Unmarshal env r
                     serverAddr)
                 (start c) in
  let key := getCacheKey r (destPort serverAddr) in
  match c !! key with
  | Some bytes =>
      cache σ' = c ∧ generated (trace σ') = [] ∧ stored (trace σ') = []
      ∧ match Unmarshal bytes with
        | inl _ => http.status (client σ') = Some http.StatusOK
        | inr _ =>
            http.status (client σ') = Some http.StatusInternalServerError
            ∧ sent (trace σ') = []
        end
  | None =>
      match llm env with
      | inl bytes =>
          cache σ' = match store_failure env with
                     | Some _ => c
                     | None => <[key := bytes]> c
                     end
      | inr _ => cache σ' = c
      end
  end.
Proof.
  intros σ' key. subst σ' key. run_handler.
  destruct (net.SplitHostPort serverAddr) as [[host port]|?]; simpl.
  all: destruct (c !! _) as [bytes|] eqn:Hc; simpl.
  all: try destruct (llm env) as [bytes|?]; simpl.
  all: try destruct (store_failure env); simpl.
  all: try destruct (Unmarshal bytes); simpl.
  all: repeat split; auto.
Qed.




(** C7. When the store of a freshly generated response fails, the
    record is sent all the same, and the error of the store is dropped:
    the lines logged are those of a run whose store succeeds, none of
    them about the store. *)
Theorem handleRequest_store_failure_not_logged :
  ∀ (lowerCase : Z → Z) (getCacheKey : http.Request → string → string)
    (Unmarshal : string → HTTPResponse + error)
    (order : gmap string string → list (string * string))
    (r : http.Request) (serverAddr : string) (c : gmap string string)
    (bytes : string) (record : HTTPResponse) (e : error),
    c !! getCacheKey r (destPort serverAddr) = None →
    Unmarshal bytes = inl record →
    let run failure :=
      exec (handleRequest lowerCase getCacheKey Unmarshal
              {| llm := inl bytes; store_failure := failure;
                 range_headers := order |} r serverAddr)
           (start c) in
    let σ' := run (Some e) in
    sent (trace σ') = [record]
    ∧ http.status (client σ') = Some http.StatusOK
    ∧ http.written (client σ') = [Body record]
    ∧ cache σ' = c
    ∧ logged (trace σ')
      = [ Infof "port %s received a request for %q, from source %s"
                [destPort serverAddr; http.URL r; http.RemoteAddr r];
          Infof "request cache miss for %q: %s" [http.URL r; "cache miss"];
          Infof "generated HTTP response: %s" [bytes];
          Infof "sent the generated response to %s" [http.RemoteAddr r] ]
    ∧ logged (trace σ') = logged (trace (run None)).
Proof.
  intros lowerCase getCacheKey Unmarshal order r serverAddr c bytes record e.
  run_handler.
  destruct (net.SplitHostPort serverAddr) as [[host port]|?]; simpl.
  all: intros -> ->; simpl.
  all: split_and!; reflexivity.
Qed.

Lemma handleRequest_store_failure_not_logged_witness :
  let σ' := exec (handleRequest sampleLower sampleKey sampleUnmarshal
                    (answering (inl samplePayload) (Some "database is locked"))
                    sampleRequest ":80")
                 (start ∅) in
  sent (trace σ') = [sampleRecord]
  ∧ logged (trace σ')
    = [ Infof "port %s received a request for %q, from source %s"
              ["80"; "/etc/passwd"; "203.0.113.7:51234"];
        Infof "request cache miss for %q: %s" ["/etc/passwd"; "cache miss"];
        Infof "generated HTTP response: %s" [samplePayload];
        Infof "sent the generated response to %s" ["203.0.113.7:51234"] ].
Proof.
  intros σ'.
  destruct (handleRequest_store_failure_not_logged sampleLower sampleKey
              sampleUnmarshal map_to_list sampleRequest ":80" ∅
              samplePayload sampleRecord "database is locked")
    as (Hsent & _ & _ & _ & Hlog & _).
  { apply lookup_empty. }
  { reflexivity. }
  split; [exact Hsent|exact Hlog].
Defined.

(** An entry whose bytes do not decode turns every request for its key
    into a 500 without a call of the backend, and no request removes or
    replaces it. *)
Lemma poisoned_entry_persists
    (lowerCase : Z → Z) (getCacheKey : http.Request → string → string)
    (Unmarshal : string → HTTPResponse + error)
    (key bytes : string) (e : error)
    (requests : list (Env * http.Request * string)) :
  Unmarshal bytes = inr e →
  ∀ c : gmap string string,
    c !! key = Some bytes →
    Forall2 (λ '(_, r', serverAddr') σ,
               getCacheKey r' (destPort serverAddr') = key →
               http.status (client σ) = Some http.StatusInternalServerError
               ∧ generated (trace σ) = []
               ∧ stored (trace σ) = []
               ∧ sent (trace σ) = []
               ∧ cache σ !! key = Some bytes)
            requests (serveAll lowerCase getCacheKey Unmarshal c requests).
Proof.
  intros Hbad.
  induction requests as [|[[env' r'] serverAddr'] rest IH]; intros c Hc;
    simpl; constructor.
  - intros Hkey.
    pose proof (handleRequest_cases lowerCase getCacheKey Unmarshal env' r'
                  serverAddr' c) as H.
    simpl in H. rewrite Hkey, Hc, Hbad in H.
    destruct H as (Hcache & Hgen & Hst & Hstatus & Hsent).
    by rewrite Hcache.
  - apply IH.
    pose proof (handleRequest_cases lowerCase getCacheKey Unmarshal env' r'
                  serverAddr' c) as H.
    simpl in H.
    destruct (c !! getCacheKey r' (destPort serverAddr')) eqn:Hc'.
    + destruct H as (-> & _). done.
    + destruct (llm env'); [destruct (store_failure env')|]; rewrite H;
        try done.
      rewrite lookup_insert_ne; [done|congruence].
Qed.

(** C10. On a miss the generated bytes are written to the cache
    before they are decoded. If they do not decode, the client gets a 500
    and the bytes stay in the cache: every later request with the same
    key finds them, fails on them in the same way and gets a 500, the
    generation backend not being called again. *)
Theorem unparseable_response_stays_cached :
  ∀ (lowerCase : Z → Z) (getCacheKey : http.Request → string → string)
    (Unmarshal : string → HTTPResponse + error)
    (env : Env) (r : http.Request) (serverAddr : string)
    (c : gmap string string) (bytes : string) (e : error)
    (later : list (Env * http.Request * string)),
    let key := getCacheKey r (destPort serverAddr) in
    c !! key = None →
    llm env = inl bytes →
    store_failure env = None →
    Unmarshal bytes = inr e →
    let σ' := exec (handleRequest lowerCase getCacheKey Unmarshal env r
                       serverAddr)
                   (start c) in
    http.status (client σ') = Some http.StatusInternalServerError
    ∧ cache σ' = <[key := bytes]> c
    ∧ (∃ before,
         trace σ'
         = before ++
           [ Store key bytes None;
             Log (Errorf "error unmarshalling the json-encoded data: %s" [e]);
             Reply500 ])
    ∧ Forall2 (λ '(_, r', serverAddr') σ,
                 getCacheKey r' (destPort serverAddr') = key →
                 http.status (client σ)
                 = Some http.StatusInternalServerError
                 ∧ generated (trace σ) = []
                 ∧ stored (trace σ) = []
                 ∧ sent (trace σ) = []
                 ∧ cache σ !! key = Some bytes)
              later (serveAll lowerCase getCacheKey Unmarshal (cache σ') later).
Proof.
  intros lowerCase getCacheKey Unmarshal env r serverAddr c bytes e later key
    Hmiss Hllm Hstore Hbad σ'.
  assert (Hcache : cache σ' = <[key := bytes]> c).
  { pose proof (handleRequest_cases lowerCase getCacheKey Unmarshal env r
                  serverAddr c) as H.
    simpl in H. fold key in H. by rewrite Hmiss, Hllm, Hstore in H. }
  split_and!.
  - subst σ' key. revert Hmiss. run_handler.
    destruct (net.SplitHostPort serverAddr) as [[host port]|?]; simpl.
    all: intros ->; simpl; rewrite Hllm; simpl; rewrite Hstore; simpl.
    all: by rewrite Hbad.
  - exact Hcache.
  - subst σ' key. revert Hmiss. run_handler.
    destruct (net.SplitHostPort serverAddr) as [[host port]|?]; simpl.
    all: intros ->; simpl; rewrite Hllm; simpl; rewrite Hstore; simpl.
    all: rewrite Hbad; simpl.
    all: match goal with
         | |- ∃ _, ?l = _ => by exists (take (length l - 3) l)
         end.
  - apply (poisoned_entry_persists _ _ _ _ _ e); [done|].
    rewrite Hcache. apply lookup_insert_eq.
Qed.

Lemma unparseable_response_stays_cached_witness :
  let first := exec (handleRequest sampleLower sampleKey sampleUnmarshal
                       (answering (inl "<html>") None)
                       sampleRequest ":80")
                    (start ∅) in
  cache first = {[ "80_/etc/passwd" := "<html>" ]}
  ∧ Forall (λ σ, http.status (client σ)
                 = Some http.StatusInternalServerError
                 ∧ generated (trace σ) = [])
           (serveAll sampleLower sampleKey sampleUnmarshal (cache first)
              [ (answering (inl samplePayload) None,
                 sampleRequest, ":80");
                (answering (inr "connection refused") None,
                 sampleRequest, ":80") ]).
Proof.
  intros first.
  destruct (unparseable_response_stays_cached sampleLower sampleKey
              sampleUnmarshal
              (answering (inl "<html>") None)
              sampleRequest ":80" ∅ "<html>"
              "invalid character '<' looking for beginning of value"
              [ (answering (inl samplePayload) None,
                 sampleRequest, ":80");
                (answering (inr "connection refused") None,
                 sampleRequest, ":80") ])
    as (_ & Hcache & _ & Hlater).
  { apply lookup_empty. }
  { reflexivity. }
  { reflexivity. }
  { reflexivity. }
  unfold first. cbn [serveAll] in *.
  apply Forall2_cons_1 in Hlater as [H1 Hlater].
  apply Forall2_cons_1 in Hlater as [H2 _].
  cbv beta iota in H1, H2.
  split.
  - rewrite Hcache. apply insert_empty.
  - constructor; [|constructor; [|constructor]].
    + destruct H1 as (Hstatus & Hgen & _); [reflexivity|]. by split.
    + destruct H2 as (Hstatus & Hgen & _); [reflexivity|]. by split.
Defined.

(** ** The sessionizer *)








(** ** Starting the listeners *)

Lemma startServers_err_from (cfg : Config) (nw : Network)
    (finished : list PortConfig) :
  ∀ acc : Startup,
    startup_err
      (foldl (λ acc pc,
                let '(lines, err) := startListener cfg nw pc in
                match err with
                | Some e =>
                    {| Servers := Servers acc;
                       startup_log := startup_log acc ++ lines;
                       startup_err := Some (default e (startup_err acc)) |}
                | None =>
                    {| Servers := <[Port pc := setupServer pc]> (Servers acc);
                       startup_log := startup_log acc ++ lines;
                       startup_err := startup_err acc |}
                end) acc finished)
    = match startup_err acc with
      | Some e => Some e
      | None => head (failures cfg nw finished)
      end.
Proof.
  induction finished as [|pc rest IH]; intros acc; cbn [foldl].
  - by destruct (startup_err acc).
  - rewrite IH. unfold failures. cbn [omap].
    destruct (startListener cfg nw pc) as [lines [e|]] eqn:E;
      simpl; rewrite ?E; simpl.
    + by destruct (startup_err acc).
    + done.
Qed.

(** [g.Wait()] returns the error of the first listener to fail. *)
Lemma startServers_err (cfg : Config) (nw : Network)
    (finished : list PortConfig) :
  startup_err (startServers cfg nw finished)
  = head (failures cfg nw finished).
Proof. unfold startServers. by rewrite startServers_err_from. Qed.

Lemma elem_of_failures (cfg : Config) (nw : Network)
    (ports : list PortConfig) (e : error) :
  e ∈ failures cfg nw ports
  ↔ ∃ pc, pc ∈ ports ∧ (startListener cfg nw pc).2 = Some e.
Proof. unfold failures. by rewrite list_elem_of_omap. Qed.

Lemma startListener_logs_failure (cfg : Config) (nw : Network)
    (pc : PortConfig) (e : error) :
  (startListener cfg nw pc).2 = Some e →
  Errorf "error starting server on port %d: %s" [itoa (Port pc); e]
  ∈ (startListener cfg nw pc).1.
Proof.
  unfold startListener.
  destruct (if String.eqb (Protocol pc) "TLS" then _ else _)
    as [lines [e'|]]; cbn; [|done].
  intros [= ->]. apply elem_of_app. right. by apply list_elem_of_singleton.
Qed.

Lemma startServers_log_from (cfg : Config) (nw : Network)
    (finished : list PortConfig) :
  ∀ acc : Startup,
    startup_log
      (foldl (λ acc pc,
                let '(lines, err) := startListener cfg nw pc in
                match err with
                | Some e =>
                    {| Servers := Servers acc;
                       startup_log := startup_log acc ++ lines;
                       startup_err := Some (default e (startup_err acc)) |}
                | None =>
                    {| Servers := <[Port pc := setupServer pc]> (Servers acc);
                       startup_log := startup_log acc ++ lines;
                       startup_err := startup_err acc |}
                end) acc finished)
    = startup_log acc
      ++ mjoin ((λ pc, (startListener cfg nw pc).1) <$> finished).
Proof.
  induction finished as [|pc rest IH]; intros acc; cbn [foldl].
  - simpl. by rewrite app_nil_r.
  - rewrite IH. simpl.
    destruct (startListener cfg nw pc) as [lines [e|]] eqn:E;
      simpl; by rewrite <- app_assoc.
Qed.

(** Every listener that fails leaves a line in the log. *)
Lemma startServers_logs_failures (cfg : Config) (nw : Network)
    (finished : list PortConfig) (pc : PortConfig) (e : error) :
  pc ∈ finished →
  (startListener cfg nw pc).2 = Some e →
  Errorf "error starting server on port %d: %s" [itoa (Port pc); e]
  ∈ startup_log (startServers cfg nw finished).
Proof.
  intros Hin Hfail. unfold startServers.
  rewrite startServers_log_from. simpl.
  apply list_elem_of_join.
  exists ((startListener cfg nw pc).1). split.
  - by apply startListener_logs_failure.
  - by apply (list_elem_of_fmap_2 (λ pc, (startListener cfg nw pc).1)).
Qed.

(** [startServers] returns once every listener has ended, and then with
    the error of the first one to fail. *)
Lemma Wait_ended (cfg : Config) (nw : Network) (finished : list PortConfig) :
  finished ≡ₚ Ports cfg →
  Wait cfg nw finished = Some (head (failures cfg nw finished)).
Proof.
  intros Hperm. unfold Wait. rewrite decide_True by done.
  by rewrite startServers_err.
Qed.

Lemma Wait_serving (cfg : Config) (nw : Network) (finished : list PortConfig) :
  (length finished < length (Ports cfg))%nat → Wait cfg nw finished = None.
Proof.
  intros Hlen. unfold Wait. rewrite decide_False; [done|].
  intros Hperm. apply Permutation_length in Hperm. lia.
Qed.

Lemma startServers_records_failure (cfg : Config) (nw : Network)
    (finished : list PortConfig) (pc : PortConfig) (e : error) :
  pc ∈ finished →
  (startListener cfg nw pc).2 = Some e →
  is_Some (startup_err (startServers cfg nw finished)).
Proof.
  intros Hin Hfail. rewrite startServers_err.
  assert (He : e ∈ failures cfg nw finished)
    by (apply elem_of_failures; by exists pc).
  destruct (failures cfg nw finished); [by apply elem_of_nil in He|done].
Qed.

(** C6, on the code. [startServers] returns only when every listener
    has come to an end: as long as one of them serves, the failure of
    another one is held by the group and logged, and no more; the set
    that is left goes on serving. Once all have ended, the value returned
    is the error of the first one that failed. A TLS binding without a
    profile, or whose profile is unknown or lacks the certificate or the
    key, fails before it listens, and so does a binding whose protocol
    is neither [TLS] nor [HTTP]; a TLS binding with a complete profile
    ends as [ListenAndServeTLS] does with that certificate and key, an
    HTTP binding as [ListenAndServe] does. *)
Theorem startServers_waits_for_serving_listeners :
  ∀ (cfg : Config) (nw : Network) (ended : list PortConfig),
    let result := startServers cfg nw ended in
    ((length ended < length (Ports cfg))%nat → Wait cfg nw ended = None)
    ∧ (is_Some (Wait cfg nw ended) ↔ ended ≡ₚ Ports cfg)
    ∧ (ended ≡ₚ Ports cfg →
       Wait cfg nw ended = Some (head (failures cfg nw ended)))
    ∧ (∀ pc e,
         pc ∈ ended → (startListener cfg nw pc).2 = Some e →
         is_Some (startup_err result)
         ∧ Errorf "error starting server on port %d: %s" [itoa (Port pc); e]
           ∈ startup_log result)
    ∧ (∀ pc,
         Protocol pc = "TLS" →
         TLSProfile pc = ""
         ∨ TLS cfg !! TLSProfile pc = None
         ∨ (∃ profile, TLS cfg !! TLSProfile pc = Some profile
                       ∧ (Certificate profile = "" ∨ Key profile = "")) →
         (startListener cfg nw pc).2
         = Some ((if String.eqb (TLSProfile pc) ""
                  then "TLS profile is not configured for port "
                  else "TLS profile is incomplete for port ")
                 +:+ itoa (Port pc)))
    ∧ (∀ pc,
         Protocol pc ≠ "TLS" → Protocol pc ≠ "HTTP" →
         (startListener cfg nw pc).2
         = Some ("unknown protocol for port " +:+ itoa (Port pc)))
    ∧ (∀ pc profile,
         Protocol pc = "TLS" →
         TLSProfile pc ≠ "" →
         TLS cfg !! TLSProfile pc = Some profile →
         Certificate profile ≠ "" →
         Key profile ≠ "" →
         (startListener cfg nw pc).2
         = ListenAndServeTLS nw (setupServer pc)
             (Certificate profile) (Key profile))
    ∧ (∀ pc,
         Protocol pc = "HTTP" →
         (startListener cfg nw pc).2 = ListenAndServe nw (setupServer pc)).
Proof.
  intros cfg nw ended result. subst result.
  split_and!.
  - apply Wait_serving.
  - unfold Wait. case_decide; split; done.
  - apply Wait_ended.
  - intros pc e Hin Hfail. split.
    + by apply (startServers_records_failure cfg nw ended pc e).
    + by apply startServers_logs_failures.
  - intros pc Htls Hbad. unfold startListener, startTLSServer.
    rewrite Htls; simpl.
    destruct (String.eqb_spec (TLSProfile pc) "") as [Hempty|Hprofile];
      [done|].
    destruct Hbad as [?|[Hnone|(profile & Hsome & Hbad)]]; [done|..].
    + by rewrite Hnone.
    + rewrite Hsome.
      destruct Hbad as [-> | ->]; simpl; [done|].
      by rewrite orb_true_r.
  - intros pc Hnot_tls Hnot_http. unfold startListener.
    destruct (String.eqb_spec (Protocol pc) "TLS"); [done|].
    destruct (String.eqb_spec (Protocol pc) "HTTP"); done.
  - intros pc profile Htls Hname Hprofile Hcert Hkey.
    unfold startListener, startTLSServer. rewrite Htls; simpl.
    destruct (String.eqb_spec (TLSProfile pc) ""); [done|].
    rewrite Hprofile.
    destruct (String.eqb_spec (Certificate profile) ""); [done|].
    destruct (String.eqb_spec (Key profile) ""); [done|]. simpl.
    by destruct (ListenAndServeTLS nw _ _ _).
  - intros pc Hhttp. unfold startListener, startHTTPServer.
    rewrite Hhttp; simpl. by destruct (ListenAndServe nw (setupServer pc)).
Qed.

(** The listener on port 80 serves while those on ports 443 and 8443
    have failed on their profile: [startServers] has not returned, the
    error is held by the group, and it is in the log. *)
Lemma startServers_waits_for_serving_listeners_witness :
  let failed := [ {| Port := 443; Protocol := "TLS";
                     TLSProfile := "tls_profile1" |};
                  {| Port := 8443; Protocol := "TLS";
                     TLSProfile := "tls_profile1" |} ] in
  Wait sampleConfig sampleNetwork failed = None
  ∧ is_Some (startup_err (startServers sampleConfig sampleNetwork failed))
  ∧ Errorf "error starting server on port %d: %s"
           ["443"; "TLS profile is incomplete for port 443"]
    ∈ startup_log (startServers sampleConfig sampleNetwork failed).
Proof.
  intros failed.
  destruct (startServers_waits_for_serving_listeners sampleConfig
              sampleNetwork failed)
    as (Hserving & _ & _ & Hfailed & _).
  split; [apply Hserving; simpl; lia|].
  apply (Hfailed {| Port := 443; Protocol := "TLS";
                    TLSProfile := "tls_profile1" |}
                 "TLS profile is incomplete for port 443").
  - apply list_elem_of_here.
  - reflexivity.
Defined.

(** ** The event records *)

(** *** What is read back from a line *)

Lemma DecodeRuneInString_ascii (c : ascii) (s : string) :
  (byteOf c <? 128)%Z = true →
  utf8.DecodeRuneInString (String c s) = (byteOf c, 1%Z).
Proof.
  intros Hc. unfold utf8.DecodeRuneInString, utf8.at_.
  cbn [String.length String.get].
  destruct (Z.ltb_spec (Z.of_nat (S (String.length s))) 1); [lia|].
  unfold utf8.first.
  change (byteOf c <? 128)%Z with (byteOf c <? 0x80)%Z in Hc.
  by rewrite Hc.
Qed.

Lemma byteOf_range (c : ascii) : (0 ≤ byteOf c < 256)%Z.
Proof.
  unfold byteOf. pose proof (N_ascii_bounded c). lia.
Qed.

(** A string that starts with an ASCII byte is read back with that byte
    in front. *)
Lemma text_cons_ascii (c : ascii) (s : string) :
  (byteOf c <? 128)%Z = true →
  json.text (String c s) = String c (json.text s).
Proof.
  intros Hc. unfold json.text. cbn [json.textFrom].
  rewrite (DecodeRuneInString_ascii c s Hc).
  apply Z.ltb_lt in Hc.
  destruct (Z.eqb_spec (byteOf c) utf8.RuneError) as [Heq|_];
    [unfold utf8.RuneError in Heq; lia|].
  done.
Qed.

Lemma text_app_ascii (name s : string) :
  strings.isASCII name = true → json.text (name +:+ s) = name +:+ json.text s.
Proof.
  induction name as [|c name IH]; [done|].
  cbn [strings.isASCII]. intros [Hc Hname]%andb_true_iff.
  rewrite app_cons, text_cons_ascii by done. by rewrite IH.
Qed.

Lemma text_ascii (name : string) :
  strings.isASCII name = true → json.text name = name.
Proof.
  induction name as [|c name IH]; [done|].
  cbn [strings.isASCII]. intros [Hc Hname]%andb_true_iff.
  by rewrite text_cons_ascii, IH.
Qed.

(** A valid string is read back as it is. *)
Lemma textFrom_valid (s : string) :
  ∀ width, utf8.validFrom width s = true → json.textFrom width s = s.
Proof.
  induction s as [|c s IH]; intros width Hvalid; [done|].
  cbn [utf8.validFrom json.textFrom] in *.
  destruct width as [|k]; [|by rewrite IH].
  destruct (utf8.DecodeRuneInString (String c s)) as [r size].
  destruct ((r =? utf8.RuneError)%Z && (size =? 1)%Z); [done|].
  by rewrite IH.
Qed.

Lemma text_valid (s : string) :
  utf8.ValidString s = true → json.text s = s.
Proof. apply textFrom_valid. Qed.

(** What is read back starts with an ASCII byte only if the string
    does. *)
Lemma text_cons_inv (c c' : ascii) (s t : string) :
  (byteOf c' <? 128)%Z = true →
  json.text (String c s) = String c' t →
  c = c' ∧ t = json.text s.
Proof.
  intros Hc' Htext.
  destruct (byteOf c <? 128)%Z eqn:Hc.
  - rewrite text_cons_ascii in Htext by done. by injection Htext as -> ->.
  - exfalso. unfold json.text in Htext. cbn [json.textFrom] in Htext.
    destruct (utf8.DecodeRuneInString (String c s)) as [r size].
    destruct ((r =? utf8.RuneError)%Z && (size =? 1)%Z).
    + injection Htext as <- _. vm_compute in Hc'. discriminate.
    + injection Htext as <- _. congruence.
Qed.

Lemma text_nil_inv (k : string) : json.text k = "" → k = "".
Proof.
  destruct k as [|c k]; [done|].
  unfold json.text. cbn [json.textFrom].
  destruct (utf8.DecodeRuneInString (String c k)) as [r size].
  by destruct ((r =? utf8.RuneError)%Z && (size =? 1)%Z).
Qed.

(** A name that is read back with an ASCII prefix has that prefix. *)
Lemma text_prefix_inv (prefix : string) :
  strings.isASCII prefix = true →
  ∀ k t, json.text k = prefix +:+ t →
         ∃ k0, k = prefix +:+ k0 ∧ t = json.text k0.
Proof.
  induction prefix as [|a prefix IH]; intros Hascii k t Htext.
  - by exists k.
  - cbn [strings.isASCII] in Hascii.
    apply andb_true_iff in Hascii as [Ha Hprefix].
    rewrite app_cons in Htext.
    destruct k as [|c k]; [done|].
    apply text_cons_inv in Htext as [-> Ht]; [|done].
    destruct (IH Hprefix k t) as (k0 & -> & ->); [done|].
    by exists k0.
Qed.

Lemma append_nil_r (s : string) : s +:+ "" = s.
Proof. induction s as [|c s IH]; [done|]. by rewrite app_cons, IH. Qed.

Lemma text_ascii_inv (name k : string) :
  strings.isASCII name = true → json.text k = name → k = name.
Proof.
  intros Hascii Htext.
  destruct (text_prefix_inv name Hascii k "") as (k0 & -> & Hk0).
  { by rewrite append_nil_r. }
  symmetry in Hk0. apply text_nil_inv in Hk0 as ->.
  apply append_nil_r.
Qed.

(** *** The encoding of an object *)

Lemma Encode_members (data : gmap string logger.Value)
    (line : list (string * logger.Value)) :
  logger.Encode data = Some line →
  Forall2 (λ member written,
             ∃ v, logger.encodeValue member.2 = Some v
                  ∧ written = (json.text member.1, v))
          (merge_sort logger.byKey (map_to_list data)) line.
Proof.
  unfold logger.Encode. intros H. apply mapM_Some in H.
  eapply Forall2_impl; [exact H|].
  intros [k v] written Hw. simpl in *.
  destruct (logger.encodeValue v) as [v'|]; [|done].
  exists v'. split; [done|]. by injection Hw.
Qed.

(** Every field of the object is a member of the line. *)
Lemma Encode_member (data : gmap string logger.Value)
    (line : list (string * logger.Value)) (k : string) (v : logger.Value) :
  logger.Encode data = Some line →
  data !! k = Some v →
  ∃ v', logger.encodeValue v = Some v' ∧ (json.text k, v') ∈ line.
Proof.
  intros Henc Hk. apply Encode_members in Henc.
  assert (Hin : (k, v) ∈ merge_sort logger.byKey (map_to_list data)).
  { rewrite (merge_sort_Permutation logger.byKey).
    by apply elem_of_map_to_list. }
  apply list_elem_of_lookup in Hin as [i Hi].
  destruct (Forall2_lookup_l _ _ _ _ _ Henc Hi) as (written & Hw & v' & Hv & ->).
  exists v'. split; [done|]. by apply list_elem_of_lookup_2 in Hw.
Qed.

(** Every member of the line is a field of the object. *)
Lemma Encode_member_inv (data : gmap string logger.Value)
    (line : list (string * logger.Value)) (name : string)
    (written : logger.Value) :
  logger.Encode data = Some line →
  (name, written) ∈ line →
  ∃ k v, data !! k = Some v ∧ name = json.text k
         ∧ logger.encodeValue v = Some written.
Proof.
  intros Henc Hin. apply Encode_members in Henc.
  apply list_elem_of_lookup in Hin as [i Hi].
  destruct (Forall2_lookup_r _ _ _ _ _ Henc Hi)
    as ([k v] & Hkv & v' & Hv & Heq).
  injection Heq as -> ->. exists k, v. split_and!; try done.
  apply list_elem_of_lookup_2 in Hkv.
  rewrite (merge_sort_Permutation logger.byKey) in Hkv.
  by apply elem_of_map_to_list.
Qed.

Lemma Encode_is_Some (data : gmap string logger.Value) :
  (∀ k v, data !! k = Some v → is_Some (logger.encodeValue v)) →
  is_Some (logger.Encode data).
Proof.
  intros Hall. unfold logger.Encode. apply mapM_is_Some, Forall_forall.
  intros [k v] Hin. simpl.
  rewrite (merge_sort_Permutation logger.byKey) in Hin.
  apply elem_of_map_to_list in Hin.
  destruct (Hall k v Hin) as [v' ->]. by eexists.
Qed.

Lemma Encode_None (data : gmap string logger.Value) (k : string)
    (v : logger.Value) :
  data !! k = Some v → logger.encodeValue v = None → logger.Encode data = None.
Proof.
  intros Hk Hv. unfold logger.Encode. apply mapM_None, Exists_exists.
  exists (k, v). split.
  - rewrite (merge_sort_Permutation logger.byKey).
    by apply elem_of_map_to_list.
  - simpl. by rewrite Hv.
Qed.

(** A text filed in the object is held by the line. *)
Lemma Encode_holds (data : gmap string logger.Value)
    (line : list (string * logger.Value)) (k v : string) :
  logger.Encode data = Some line →
  data !! k = Some (logger.VString v) → holds line k v.
Proof.
  intros Henc Hk.
  destruct (Encode_member data line k _ Henc Hk) as (v' & Hv & Hin).
  injection Hv as <-. exact Hin.
Qed.

(** The line lacks a name that the object files nothing under. *)
Lemma Encode_lacks (data : gmap string logger.Value)
    (line : list (string * logger.Value)) (name : string) :
  logger.Encode data = Some line →
  strings.isASCII name = true →
  data !! name = None → lacks line name.
Proof.
  intros Henc Hascii Hnone v Hin.
  apply (Encode_member_inv data) in Hin as (k & v0 & Hk & Hname & _);
    [|done].
  symmetry in Hname. apply text_ascii_inv in Hname as ->; [|done].
  congruence.
Qed.

Lemma Encode_lacks_prefix (data : gmap string logger.Value)
    (line : list (string * logger.Value)) (prefix : string) :
  logger.Encode data = Some line →
  strings.isASCII prefix = true →
  (∀ k, data !! (prefix +:+ k) = None) →
  ∀ k, lacks line (prefix +:+ k).
Proof.
  intros Henc Hascii Hnone k v Hin.
  apply (Encode_member_inv data) in Hin as (k0 & v0 & Hk & Hname & _);
    [|done].
  symmetry in Hname.
  apply text_prefix_inv in Hname as (k1 & -> & _); [|done].
  by rewrite Hnone in Hk.
Qed.

(** *** The object that is encoded *)

Lemma lookup_flatten (prefix : string) (m : gmap string string)
    (fields : gmap string logger.Value) :
  (∀ h v, m !! h = Some v →
          logger.flatten prefix m fields !! (prefix +:+ h)
          = Some (logger.VString v))
  ∧ (∀ k, (∀ h, k = prefix +:+ h → m !! h = None) →
          logger.flatten prefix m fields !! k = fields !! k).
Proof.
  unfold logger.flatten.
  apply (map_fold_weak_ind
           (λ acc m,
              (∀ h v, m !! h = Some v →
                      acc !! (prefix +:+ h) = Some (logger.VString v))
              ∧ (∀ k, (∀ h, k = prefix +:+ h → m !! h = None) →
                      acc !! k = fields !! k))).
  - split; [by intros ?? ?%lookup_empty_Some|done].
  - intros i x m' acc Hfresh [IHa IHb]. split.
    + intros h v Hh. destruct (decide (h = i)) as [->|Hne].
      * rewrite lookup_insert_eq in Hh. rewrite lookup_insert_eq. congruence.
      * rewrite lookup_insert_ne in Hh by done.
        rewrite lookup_insert_ne; [by apply IHa|].
        intros Heq. by apply (inj _) in Heq.
    + intros k Hk.
      assert (k ≠ prefix +:+ i).
      { intros ->. specialize (Hk i eq_refl).
        by rewrite lookup_insert_eq in Hk. }
      rewrite lookup_insert_ne by done. apply IHb.
      intros h ->. specialize (Hk h eq_refl).
      rewrite lookup_insert_ne in Hk; [done|congruence].
Qed.

Lemma flatten_value (prefix : string) (m : gmap string string)
    (fields : gmap string logger.Value) (k : string) (v : logger.Value) :
  logger.flatten prefix m fields !! k = Some v →
  plain v ∨ fields !! k = Some v.
Proof.
  unfold logger.flatten. revert k v.
  apply (map_fold_weak_ind
           (λ acc m, ∀ k v, acc !! k = Some v →
                            plain v ∨ fields !! k = Some v)).
  - by right.
  - intros i x m' acc _ IH k v Hk.
    apply lookup_insert_Some in Hk as [[_ <-]|[_ Hk]]; [by left|by apply IH].
Qed.

Lemma merge_fields (m fields : gmap string logger.Value) :
  map_fold (λ k v acc, <[k := v]> acc) fields m = m ∪ fields.
Proof.
  apply (map_fold_weak_ind (λ acc m, acc = m ∪ fields)).
  - by rewrite (left_id_L ∅ (∪)).
  - intros i x m' acc _ ->. by rewrite insert_union_l.
Qed.

Lemma prefixFieldClash_lookup (key k : string)
    (data : gmap string logger.Value) :
  k ≠ key → k ≠ "fields." +:+ key →
  logger.prefixFieldClash key data !! k = data !! k.
Proof.
  intros H1 H2. unfold logger.prefixFieldClash.
  destruct (data !! key); [|done].
  by rewrite lookup_delete_ne, lookup_insert_ne.
Qed.

Lemma prefixFieldClash_value (key k : string)
    (data : gmap string logger.Value) (v : logger.Value) :
  logger.prefixFieldClash key data !! k = Some v → ∃ k0, data !! k0 = Some v.
Proof.
  unfold logger.prefixFieldClash.
  destruct (data !! key) as [moved|] eqn:Hkey; [|by exists k].
  intros H. apply lookup_delete_Some in H as [_ H].
  apply lookup_insert_Some in H as [[_ <-]|[_ H]]; [by exists key|by exists k].
Qed.

(** A field that bears none of the names of the formatter is handed to
    the encoder as it is. *)
Lemma Format_lookup (e : logger.Entry) (k : string) :
  k ∉ formatterKeys →
  logger.Format jsonLines e !! k = logger.Data e !! k.
Proof.
  unfold formatterKeys. rewrite !not_elem_of_cons.
  intros (? & ? & ? & ? & ? & ? & ? & ? & _).
  unfold logger.Format; simpl.
  rewrite !lookup_insert_ne by done.
  by rewrite !prefixFieldClash_lookup by done.
Qed.

(** What the formatter hands to the encoder is a field of the entry or
    one of its own three. *)
Lemma Format_value (f : logger.JSONFormatter) (e : logger.Entry)
    (k : string) (v : logger.Value) :
  logger.Format f e !! k = Some v → plain v ∨ ∃ k0, logger.Data e !! k0 = Some v.
Proof.
  unfold logger.Format. intros H.
  apply lookup_insert_Some in H as [[_ <-]|[_ H]]; [by left|].
  apply lookup_insert_Some in H as [[_ <-]|[_ H]]; [by left|].
  apply lookup_insert_Some in H as [[_ <-]|[_ H]]; [by left|].
  right.
  apply prefixFieldClash_value in H as [k1 H].
  apply prefixFieldClash_value in H as [k2 H].
  apply prefixFieldClash_value in H as [k3 H].
  by apply prefixFieldClash_value in H.
Qed.

Lemma Join_tags (info : logger.Info) :
  strings.Join (if String.eqb (logger.KnownScanner info) "" then []
                else [logger.KnownScanner info]) ","
  = logger.KnownScanner info.
Proof. by destruct (String.eqb_spec (logger.KnownScanner info) "") as [->|]. Qed.

Ltac not_prefixed :=
  let h := fresh "h" in
  let H := fresh "H" in
  intros h H; cbv [String.append] in H; discriminate H.

Ltac common_fields_cases :=
  unfold logger.commonFields, remote, logger.getHostname;
  match goal with
  | |- context [net.SplitHostPort ?a] =>
      destruct (net.SplitHostPort a) as [[? ?]|?]
  end; cbn [fst snd];
  match goal with
  | |- context [logger.EnrichCache ?lg ?ip] =>
      destruct (logger.EnrichCache lg ip) as [[?|]|?]
  end;
  match goal with
  | |- context [logger.Process ?a ?b ?c ?d] =>
      destruct (logger.Process a b c d) as [[? [?|]] ?]
  end; cbn [fst snd].

Ltac fixed_field :=
  rewrite (proj2 (lookup_flatten _ _ _));
  [ cbn [list_to_map foldr fst snd];
    rewrite ?lookup_insert_ne by discriminate;
    rewrite lookup_insert_eq
  | not_prefixed ].

Ltac not_listed :=
  unfold fixedKeys, formatterKeys; rewrite !not_elem_of_cons; split_and!;
  first [ apply not_elem_of_nil
        | discriminate
        | let H := fresh in
          intros H; cbv [String.append] in H; discriminate H ].

Lemma commonFields_describes (l : logger.Logger) (m : logger.Machine)
    (r : http.Request) (port : string) :
  http.Headers r !! "sorted" = None →
  http.Headers r !! "sortedSha256" = None →
  describesRequest l m r port
    (λ k v, (logger.commonFields l m r port).1.1 !! k
            = Some (logger.VString v)).
Proof.
  intros Hsorted Hsha.
  unfold describesRequest, logger.commonFields, remote,
    logger.headersSortedSha256, logger.sha256Hex, http.UserAgent.
  destruct (net.SplitHostPort (http.RemoteAddr r)) as [[host srcPort]|?];
    cbn [fst snd].
  all: match goal with
       | |- context [logger.EnrichCache ?lg ?ip] =>
           destruct (logger.EnrichCache lg ip) as [[info|]|?]
       end.
  all: match goal with
       | |- context [logger.Process ?a ?b ?c ?d] =>
           destruct (logger.Process a b c d) as [[sessionID err] sessions']
       end; cbn [fst snd].
  all: rewrite ?Join_tags.
  all: split_and!.
  all: try (intros h values Hh;
            apply (proj1 (lookup_flatten _ _ _));
            unfold logger.convertMap; by rewrite lookup_fmap, Hh).
  all: rewrite (proj2 (lookup_flatten _ _ _));
    [ cbn [list_to_map foldr fst snd];
      rewrite ?lookup_insert_ne by discriminate;
      by rewrite lookup_insert_eq
    | first [ not_prefixed
            | intros h Hk; cbv [String.append] in Hk;
              injection Hk as <-; unfold logger.convertMap;
              rewrite lookup_fmap; by rewrite ?Hsorted, ?Hsha ] ].
Qed.

(** [commonFields] files nothing under a name that is neither one of its
    literal nor that of a request header. *)
Lemma commonFields_lookup_None (l : logger.Logger) (m : logger.Machine)
    (r : http.Request) (port k : string) :
  k ∉ fixedKeys →
  (∀ h, k ≠ "request.headers." +:+ h) →
  (logger.commonFields l m r port).1.1 !! k = None.
Proof.
  intros Hfixed Hprefix. common_fields_cases.
  all: rewrite (proj2 (lookup_flatten _ _ _))
    by (intros h ->; by destruct (Hprefix h)).
  all: by apply not_elem_of_list_to_map.
Qed.

(** Every field of [commonFields] is a text. *)
Lemma commonFields_plain (l : logger.Logger) (m : logger.Machine)
    (r : http.Request) (port k : string) (v : logger.Value) :
  (logger.commonFields l m r port).1.1 !! k = Some v → plain v.
Proof.
  common_fields_cases.
  all: intros [Hv|Hv]%flatten_value; [done|].
  all: apply elem_of_list_to_map_2 in Hv.
  all: rewrite !elem_of_cons, elem_of_nil in Hv.
  all: destruct_or!; by simplify_eq.
Qed.

Lemma errorFields_plain (err resp k : string) (v : logger.Value) :
  logger.errorFields err resp !! k = Some v → plain v.
Proof.
  unfold logger.errorFields. repeat case_match; simplify_eq.
  all: intros H.
  all: apply lookup_insert_Some in H as [[_ <-]|[_ H]]; [done|].
  all: apply lookup_insert_Some in H as [[_ <-]|[_ H]]; [done|].
  all: apply lookup_insert_Some in H as [[_ <-]|[_ H]]; [done|].
  all: by rewrite lookup_empty in H.
Qed.

Lemma plain_encodable (v : logger.Value) :
  plain v → is_Some (logger.encodeValue v).
Proof. by destruct v; [eexists| |eexists]. Qed.

(** An object whose one number is the temperature is encoded exactly
    when the temperature is finite. *)
Lemma Encode_temperature (data : gmap string logger.Value) (bits : Z) :
  data !! "response.metadata.temperature" = Some (logger.VFloat bits) →
  (∀ k v, data !! k = Some v → v = logger.VFloat bits ∨ plain v) →
  if json.finite bits then is_Some (logger.Encode data)
  else logger.Encode data = None.
Proof.
  intros Htemp Hall. destruct (json.finite bits) eqn:Hfinite.
  - apply Encode_is_Some. intros k v Hk.
    destruct (Hall k v Hk) as [->|Hplain]; [|by apply plain_encodable].
    cbn [logger.encodeValue]. rewrite Hfinite. by eexists.
  - apply (Encode_None data _ _ Htemp).
    cbn [logger.encodeValue]. by rewrite Hfinite.
Qed.

(** The names on the request side are none of those that are written
    after [commonFields] has returned. *)
Lemma request_side_names (k : string) :
  k ∈ commonKeys ∨ (∃ h, k = "request.headers." +:+ h) →
  (k ∉ formatterKeys)
  ∧ (k ∉ [ "type"; "invalidResponse"; "response.body";
           "response.metadata.generationSource";
           "response.metadata.provider"; "response.metadata.model";
           "response.metadata.temperature" ])
  ∧ ∀ h, k ≠ "response.headers." +:+ h.
Proof.
  intros Hk. unfold commonKeys in Hk. unfold formatterKeys.
  rewrite !elem_of_cons, elem_of_nil in Hk.
  destruct Hk as [Hk|[h ->]].
  - destruct_or!; try done; subst k;
      (split_and!;
       [ rewrite !not_elem_of_cons; split_and!;
         first [discriminate | apply not_elem_of_nil]..
       | intros h H; cbv [String.append] in H; discriminate H ]).
  - split_and!;
      [ rewrite !not_elem_of_cons; split_and!;
        first [ apply not_elem_of_nil
              | intros H; cbv [String.append] in H; discriminate H ]..
      | intros h' H; cbv [String.append] in H; discriminate H ].
Qed.

Lemma describesRequest_agree (l : logger.Logger) (m : logger.Machine)
    (r : http.Request) (port : string)
    (field field' : string → string → Prop) :
  (∀ k v, k ∈ commonKeys ∨ (∃ h, k = "request.headers." +:+ h) →
          field k v → field' k v) →
  describesRequest l m r port field → describesRequest l m r port field'.
Proof.
  intros Hagree. unfold describesRequest.
  intros (H1 & H2 & H3 & H4 & H5 & H6 & H7 & H8 & H9 & H10 & H11 & H12
          & H13 & Hheaders).
  split_and!;
    try (apply Hagree;
         [left; unfold commonKeys; rewrite !elem_of_cons; tauto
         |assumption]).
  intros h values Hh. apply Hagree; [right; by exists h|by apply Hheaders].
Qed.

Lemma errorFields_lookup_other (err resp k : string) :
  k ∉ [ "type"; "msg"; "invalidResponse" ] →
  logger.errorFields err resp !! k = None.
Proof.
  rewrite !not_elem_of_cons. intros (? & ? & ? & _).
  unfold logger.errorFields. repeat case_match; simplify_eq;
    by rewrite !lookup_insert_ne, lookup_empty by done.
Qed.

(** The header names come out sorted, whatever the order in which the
    map was ranged over. *)
Lemma sort_Strings_sorted (names : list string) :
  Sorted String.le (logger.sort_Strings names)
  ∧ logger.sort_Strings names ≡ₚ names.
Proof.
  split.
  - apply (Sorted_merge_sort String.le).
  - apply (merge_sort_Permutation String.le).
Qed.

Lemma sort_Strings_any_order (l1 l2 : list string) :
  l1 ≡ₚ l2 → logger.sort_Strings l1 = logger.sort_Strings l2.
Proof.
  intros Hperm. apply (Sorted_unique String.le).
  - apply (Sorted_merge_sort String.le).
  - apply (Sorted_merge_sort String.le).
  - unfold logger.sort_Strings.
    by rewrite !(merge_sort_Permutation String.le).
Qed.

(** What [LogEvent] hands to the encoder, and what becomes of it. *)
Lemma LogEvent_object (l : logger.Logger) (m : logger.Machine)
    (r : http.Request) (resp : llm.JSONResponse) (port respSource : string) :
  logger.Formatter (logger.EventLogger l) = jsonLines →
  ∃ data : gmap string logger.Value,
    logger.EventLogger (logger.LogEvent l m r resp port respSource).1
    = match logger.Encode data with
      | Some line =>
          {| logger.Formatter := jsonLines;
             logger.Out := logger.Out (logger.EventLogger l) ++ [line] |}
      | None => logger.EventLogger l
      end
    ∧ (∀ k, k ∈ commonKeys ∨ (∃ h, k = "request.headers." +:+ h) →
            data !! k = (logger.commonFields l m r port).1.1 !! k)
    ∧ data !! "timestamp"
      = Some (logger.VTime logger.RFC3339 (logger.EntryTime m))
    ∧ data !! "level" = Some (logger.VString "info")
    ∧ data !! "msg" = Some (logger.VString "successfulResponse")
    ∧ data !! "response.metadata.provider"
      = Some (logger.VString (llm.Provider (logger.LLMConfig l)))
    ∧ data !! "response.metadata.model"
      = Some (logger.VString (llm.Model (logger.LLMConfig l)))
    ∧ data !! "response.metadata.temperature"
      = Some (logger.VFloat (llm.Temperature (logger.LLMConfig l)))
    ∧ data !! "response.metadata.generationSource"
      = Some (logger.VString respSource)
    ∧ data !! "response.body" = Some (logger.VString (llm.Body resp))
    ∧ (∀ k v, llm.Headers resp !! k = Some v →
              data !! ("response.headers." +:+ k) = Some (logger.VString v))
    ∧ data !! "type" = None
    ∧ data !! "invalidResponse" = None
    ∧ (∀ k v, data !! k = Some v →
              v = logger.VFloat (llm.Temperature (logger.LLMConfig l))
              ∨ plain v).
Proof.
  intros Hfmt.
  pose proof (commonFields_lookup_None l m r port) as Hnone.
  pose proof (commonFields_plain l m r port) as Hplain.
  unfold logger.LogEvent.
  destruct (logger.commonFields l m r port) as [[fields sessions'] lines].
  cbn [fst snd] in *.
  unfold logger.WithFields, logger.with_log. cbn [logger.EventLogger fst].
  rewrite Hfmt.
  eexists. split; [reflexivity|]. split_and!.
  - intros k Hk. apply request_side_names in Hk as (Hk1 & Hk2 & Hk3).
    rewrite !not_elem_of_cons in Hk2.
    destruct Hk2 as (? & ? & ? & ? & ? & ? & ? & _).
    rewrite Format_lookup by done. cbn [logger.Data].
    rewrite !lookup_insert_ne by done.
    apply (proj2 (lookup_flatten _ _ _)). intros h Hh. by destruct (Hk3 h).
  - unfold logger.Format; cbn.
    by rewrite !lookup_insert_ne, lookup_insert_eq by discriminate.
  - unfold logger.Format; cbn. by rewrite lookup_insert_eq.
  - unfold logger.Format; cbn.
    by rewrite lookup_insert_ne, lookup_insert_eq by discriminate.
  - rewrite Format_lookup by not_listed. cbn [logger.Data].
    by rewrite !lookup_insert_ne, lookup_insert_eq by discriminate.
  - rewrite Format_lookup by not_listed. cbn [logger.Data].
    by rewrite !lookup_insert_ne, lookup_insert_eq by discriminate.
  - rewrite Format_lookup by not_listed. cbn [logger.Data].
    by rewrite lookup_insert_eq.
  - rewrite Format_lookup by not_listed. cbn [logger.Data].
    by rewrite !lookup_insert_ne, lookup_insert_eq by discriminate.
  - rewrite Format_lookup by not_listed. cbn [logger.Data].
    by rewrite !lookup_insert_ne, lookup_insert_eq by discriminate.
  - intros k v Hk. rewrite Format_lookup by not_listed. cbn [logger.Data].
    rewrite !lookup_insert_ne
      by (intros H; cbv [String.append] in H; discriminate H).
    by apply (proj1 (lookup_flatten _ _ _)).
  - rewrite Format_lookup by not_listed. cbn [logger.Data].
    rewrite !lookup_insert_ne by discriminate.
    rewrite (proj2 (lookup_flatten _ _ _)) by not_prefixed.
    apply Hnone; [not_listed|not_prefixed].
  - rewrite Format_lookup by not_listed. cbn [logger.Data].
    rewrite !lookup_insert_ne by discriminate.
    rewrite (proj2 (lookup_flatten _ _ _)) by not_prefixed.
    apply Hnone; [not_listed|not_prefixed].
  - intros k v Hk. apply Format_value in Hk as [?|[k0 Hk]]; [by right|].
    cbn [logger.Data] in Hk.
    apply lookup_insert_Some in Hk as [[_ <-]|[_ Hk]]; [by left|].
    right.
    do 4 (apply lookup_insert_Some in Hk as [[_ <-]|[_ Hk]]; [done|]).
    apply flatten_value in Hk as [?|Hk]; [done|]. by apply (Hplain k0).
Qed.

(** What [LogError] hands to the encoder, and what becomes of it. *)
Lemma LogError_object (l : logger.Logger) (m : logger.Machine)
    (r : http.Request) (raw port : string) (err : error) :
  logger.Formatter (logger.EventLogger l) = jsonLines →
  ∃ data : gmap string logger.Value,
    logger.EventLogger (logger.LogError l m r raw port err).1
    = match logger.Encode data with
      | Some line =>
          {| logger.Formatter := jsonLines;
             logger.Out := logger.Out (logger.EventLogger l) ++ [line] |}
      | None => logger.EventLogger l
      end
    ∧ (∀ k, k ∈ commonKeys ∨ (∃ h, k = "request.headers." +:+ h) →
            data !! k = (logger.commonFields l m r port).1.1 !! k)
    ∧ data !! "timestamp"
      = Some (logger.VTime logger.RFC3339 (logger.EntryTime m))
    ∧ data !! "level" = Some (logger.VString "error")
    ∧ data !! "msg"
      = Some (logger.VString
                "failedResponse: returned 500 internal server error")
    ∧ data !! "fields.msg"
      = Some (logger.VString
                (strings.ReplaceAll err (classOf err +:+ ": ") ""))
    ∧ data !! "response.metadata.provider"
      = Some (logger.VString (llm.Provider (logger.LLMConfig l)))
    ∧ data !! "response.metadata.model"
      = Some (logger.VString (llm.Model (logger.LLMConfig l)))
    ∧ data !! "response.metadata.temperature"
      = Some (logger.VFloat (llm.Temperature (logger.LLMConfig l)))
    ∧ data !! "type" = Some (logger.VString (classOf err))
    ∧ data !! "invalidResponse" = Some (logger.VString raw)
    ∧ data !! "response.body" = None
    ∧ data !! "response.metadata.generationSource" = None
    ∧ (∀ k, data !! ("response.headers." +:+ k) = None)
    ∧ (∀ k v, data !! k = Some v →
              v = logger.VFloat (llm.Temperature (logger.LLMConfig l))
              ∨ plain v).
Proof.
  intros Hfmt.
  pose proof (commonFields_lookup_None l m r port) as Hnone.
  pose proof (commonFields_plain l m r port) as Hplain.
  unfold logger.LogError.
  destruct (logger.commonFields l m r port) as [[fields sessions'] lines].
  cbn [fst snd] in *.
  unfold logger.WithFields, logger.with_log. cbn [logger.EventLogger fst].
  rewrite Hfmt, merge_fields.
  eexists. split; [reflexivity|].
  assert (Habsent : ∀ k,
            k ∉ fixedKeys → (∀ h, k ≠ "request.headers." +:+ h) →
            k ∉ [ "type"; "msg"; "invalidResponse" ] →
            k ∉ formatterKeys →
            k ∉ [ "response.metadata.provider"; "response.metadata.model";
                  "response.metadata.temperature" ] →
            logger.Format jsonLines
              {| logger.Data :=
                   <["response.metadata.temperature" :=
                       logger.VFloat (llm.Temperature (logger.LLMConfig l))]>
                     (<["response.metadata.model" :=
                          logger.VString (llm.Model (logger.LLMConfig l))]>
                        (<["response.metadata.provider" :=
                             logger.VString
                               (llm.Provider (logger.LLMConfig l))]>
                           (logger.errorFields err raw ∪ fields)));
                 logger.Time := logger.EntryTime m;
                 logger.EntryLevel := logger.ErrorLevel;
                 logger.Message :=
                   "failedResponse: returned 500 internal server error" |}
            !! k = None).
  { intros k H1 H2 H3 H4 H5. rewrite Format_lookup by done.
    cbn [logger.Data].
    rewrite !not_elem_of_cons in H5. destruct H5 as (? & ? & ? & _).
    rewrite !lookup_insert_ne by done.
    apply lookup_union_None. split; [by apply errorFields_lookup_other|].
    by apply Hnone. }
  split_and!.
  - intros k Hk. apply request_side_names in Hk as (Hk1 & Hk2 & Hk3).
    pose proof Hk1 as Hk1'. unfold formatterKeys in Hk1'.
    rewrite !not_elem_of_cons in Hk1'. rewrite !not_elem_of_cons in Hk2.
    destruct Hk1' as (? & ? & ? & ? & ? & ? & ? & ? & _).
    destruct Hk2 as (? & ? & ? & ? & ? & ? & ? & _).
    rewrite Format_lookup by done.
    cbn [logger.Data]. rewrite !lookup_insert_ne by done.
    rewrite lookup_union_r; [done|].
    apply errorFields_lookup_other.
    rewrite !not_elem_of_cons; split_and!;
      first [done | apply not_elem_of_nil].
  - unfold logger.Format; cbn.
    by rewrite !lookup_insert_ne, lookup_insert_eq by discriminate.
  - unfold logger.Format; cbn. by rewrite lookup_insert_eq.
  - unfold logger.Format; cbn.
    by rewrite lookup_insert_ne, lookup_insert_eq by discriminate.
  - unfold logger.Format; cbn.
    rewrite !lookup_insert_ne by discriminate.
    rewrite !prefixFieldClash_lookup by discriminate.
    unfold logger.prefixFieldClash at 1.
    rewrite prefixFieldClash_lookup by discriminate.
    rewrite !lookup_insert_ne by discriminate.
    rewrite (lookup_union_Some_l _ _ _ _ (errorFields_msg err raw)).
    by rewrite lookup_delete_ne, lookup_insert_eq by discriminate.
  - rewrite Format_lookup by not_listed. cbn [logger.Data].
    by rewrite !lookup_insert_ne, lookup_insert_eq by discriminate.
  - rewrite Format_lookup by not_listed. cbn [logger.Data].
    by rewrite !lookup_insert_ne, lookup_insert_eq by discriminate.
  - rewrite Format_lookup by not_listed. cbn [logger.Data].
    by rewrite lookup_insert_eq.
  - rewrite Format_lookup by not_listed. cbn [logger.Data].
    rewrite !lookup_insert_ne by discriminate.
    rewrite lookup_union_l'; by rewrite errorFields_type.
  - rewrite Format_lookup by not_listed. cbn [logger.Data].
    rewrite !lookup_insert_ne by discriminate.
    rewrite lookup_union_l'; by rewrite errorFields_invalidResponse.
  - apply Habsent; try not_listed.
    intros h H; cbv [String.append] in H; discriminate H.
  - apply Habsent; try not_listed.
    intros h H; cbv [String.append] in H; discriminate H.
  - intros k. apply Habsent; try not_listed.
    intros h H; cbv [String.append] in H; discriminate H.
  - intros k v Hk. apply Format_value in Hk as [?|[k0 Hk]]; [by right|].
    cbn [logger.Data] in Hk.
    apply lookup_insert_Some in Hk as [[_ <-]|[_ Hk]]; [by left|].
    right.
    do 2 (apply lookup_insert_Some in Hk as [[_ <-]|[_ Hk]]; [done|]).
    apply lookup_union_Some_raw in Hk as [Hk|[_ Hk]].
    + by apply errorFields_plain in Hk.
    + by apply (Hplain k0).
Qed.

(** C8, as amended. With the formatter that [New] installs, [LogEvent] and
    [LogError] each append one line to the event log, unless the
    temperature of the model is not a finite number, in which case the
    encoder refuses the entry and nothing is written. The line is a flat
    object whose names are dotted and whose values are texts, but for the
    temperature and the time; names and texts are read back as they are
    when they are valid UTF-8, and with the replacement character for
    each byte that starts no rune otherwise. The line holds the source
    address and port, the destination port, the session, the tags, the
    method, protocol, URI, user agent and body of the request, the
    SHA-256 of the body, the sorted names of the request headers and
    their SHA-256, every request header under ["request.headers."], the
    provider, model and temperature of the backend, and the instant of
    the entry under ["timestamp"] in the RFC 3339 layout; a success line
    holds the body of the response and each of its headers under
    ["response.headers."], a failure line the class of the error and the
    raw response. *)
Theorem event_lines_carry_request_and_response :
  ∀ (l : logger.Logger) (m : logger.Machine) (r : http.Request)
    (port : string) (resp : llm.JSONResponse) (respSource : string)
    (raw : string) (err : error),
    logger.Formatter (logger.EventLogger l) = jsonLines →
    http.Headers r !! "sorted" = None →
    http.Headers r !! "sortedSha256" = None →
    let temperature := llm.Temperature (logger.LLMConfig l) in
    let common (line : list (string * logger.Value)) :=
      describesRequest l m r port (holds line)
      ∧ ("timestamp", logger.VTime logger.RFC3339 (logger.EntryTime m))
        ∈ line
      ∧ holds line "response.metadata.provider"
          (llm.Provider (logger.LLMConfig l))
      ∧ holds line "response.metadata.model"
          (llm.Model (logger.LLMConfig l))
      ∧ ("response.metadata.temperature", logger.VFloat temperature)
        ∈ line in
    let success := (logger.LogEvent l m r resp port respSource).1 in
    let failure := (logger.LogError l m r raw port err).1 in
    (json.finite temperature = true →
     (∃ line,
        logger.Out (logger.EventLogger success)
        = logger.Out (logger.EventLogger l) ++ [line]
        ∧ common line
        ∧ holds line "response.body" (llm.Body resp)
        ∧ ∀ k v,
            llm.Headers resp !! k = Some v →
            holds line ("response.headers." +:+ k) v)
     ∧ (∃ line,
          logger.Out (logger.EventLogger failure)
          = logger.Out (logger.EventLogger l) ++ [line]
          ∧ common line
          ∧ holds line "type" (classOf err)
          ∧ holds line "invalidResponse" raw))
    ∧ (json.finite temperature = false →
       logger.EventLogger success = logger.EventLogger l
       ∧ logger.EventLogger failure = logger.EventLogger l)
    ∧ (∀ s, utf8.ValidString s = true → json.text s = s)
    ∧ (∀ name s,
         strings.isASCII name = true →
         json.text (name +:+ s) = name +:+ json.text s)
    ∧ Sorted String.le
        (logger.sort_Strings (logger.headerKeys (http.Headers r)))
    ∧ logger.sort_Strings (logger.headerKeys (http.Headers r))
      ≡ₚ logger.headerKeys (http.Headers r)
    ∧ (∀ names,
         names ≡ₚ logger.headerKeys (http.Headers r) →
         logger.sort_Strings names
         = logger.sort_Strings (logger.headerKeys (http.Headers r)))
    ∧ logger.Formatter (logger.EventLogger success) = jsonLines
    ∧ logger.Formatter (logger.EventLogger failure) = jsonLines
    ∧ ∀ cfg eCache sessionizer,
        logger.Formatter
          (logger.EventLogger (logger.New cfg eCache sessionizer))
        = jsonLines.
Proof.
  intros l m r port resp respSource raw err Hfmt Hsorted Hsha
    temperature common success failure.
  pose proof (commonFields_describes l m r port Hsorted Hsha) as Hcommon.
  destruct (LogEvent_object l m r resp port respSource Hfmt)
    as (ok & Hok & Hok_req & Hok_time & _ & _ & Hok_prov & Hok_model
        & Hok_temp & _ & Hok_body & Hok_headers & _ & _ & Hok_plain).
  destruct (LogError_object l m r raw port err Hfmt)
    as (ko & Hko & Hko_req & Hko_time & _ & _ & _ & Hko_prov & Hko_model
        & Hko_temp & Hko_type & Hko_raw & _ & _ & _ & Hko_plain).
  pose proof (Encode_temperature ok _ Hok_temp Hok_plain) as Hok_enc.
  pose proof (Encode_temperature ko _ Hko_temp Hko_plain) as Hko_enc.
  fold temperature in Hok_enc, Hko_enc.
  assert (Hlift : ∀ data line,
            logger.Encode data = Some line →
            (∀ k, k ∈ commonKeys ∨ (∃ h, k = "request.headers." +:+ h) →
                  data !! k = (logger.commonFields l m r port).1.1 !! k) →
            data !! "timestamp"
            = Some (logger.VTime logger.RFC3339 (logger.EntryTime m)) →
            data !! "response.metadata.provider"
            = Some (logger.VString (llm.Provider (logger.LLMConfig l))) →
            data !! "response.metadata.model"
            = Some (logger.VString (llm.Model (logger.LLMConfig l))) →
            data !! "response.metadata.temperature"
            = Some (logger.VFloat temperature) →
            json.finite temperature = true →
            common line).
  { intros data line Henc Hreq Htime Hprov Hmodel Htemp Hfinite.
    subst common. cbv beta. split_and!.
    - apply (describesRequest_agree l m r port
               (λ k v, (logger.commonFields l m r port).1.1 !! k
                       = Some (logger.VString v))); [|done].
      intros k v Hk Hv. apply (Encode_holds data); [done|].
      by rewrite Hreq.
    - destruct (Encode_member data line _ _ Henc Htime) as (v' & Hv & Hin).
      by injection Hv as <-.
    - by apply (Encode_holds data).
    - by apply (Encode_holds data).
    - destruct (Encode_member data line _ _ Henc Htemp) as (v' & Hv & Hin).
      cbn [logger.encodeValue] in Hv. rewrite Hfinite in Hv.
      by injection Hv as <-. }
  subst success failure.
  split_and!; try apply sort_Strings_sorted;
    try (intros names Hnames; by apply sort_Strings_any_order).
  - intros Hfinite. rewrite Hfinite in Hok_enc, Hko_enc.
    destruct Hok_enc as [line Hline]. destruct Hko_enc as [line' Hline'].
    rewrite Hok, Hko, Hline, Hline'. cbn [logger.Out]. split.
    + exists line. split_and!; [done|by apply (Hlift ok)|..].
      * by apply (Encode_holds ok).
      * intros k v Hk. apply (Encode_holds ok); [done|by apply Hok_headers].
    + exists line'. split_and!; [done|by apply (Hlift ko)|..].
      * by apply (Encode_holds ko).
      * by apply (Encode_holds ko).
  - intros Hfinite. rewrite Hfinite in Hok_enc, Hko_enc.
    by rewrite Hok, Hko, Hok_enc, Hko_enc.
  - apply text_valid.
  - apply text_app_ascii.
  - rewrite Hok. by destruct (logger.Encode ok).
  - rewrite Hko. by destruct (logger.Encode ko).
  - done.
Qed.

Lemma event_lines_carry_request_and_response_witness :
  ∃ line,
    logger.Out
      (logger.EventLogger
         (logger.LogEvent sampleLogger sampleMachine sampleRequest
            sampleJSONResponse "80" "llm").1)
    = [line]
    ∧ holds line "src_ip" "203.0.113.7"
    ∧ holds line "session" "5f0c1c6e"
    ∧ holds line "request.headers.sorted" "Accept,User-Agent"
    ∧ holds line "request.bodySha256"
        "e3b0c44298fc1c149afbf4c8996fb92427ae41e4649b934ca495991b7852b855".
Proof.
  destruct (event_lines_carry_request_and_response sampleLogger
              sampleMachine sampleRequest "80" sampleJSONResponse "llm"
              "<html>" "invalidJSONResponse: unexpected end of JSON input")
    as (Hfinite & _).
  { reflexivity. }
  { vm_compute. reflexivity. }
  { vm_compute. reflexivity. }
  destruct Hfinite as ((line & Hout & (Hrequest & _) & _) & _).
  { reflexivity. }
  destruct Hrequest
    as (Hip & _ & _ & Hsession & _ & _ & _ & _ & _ & _ & Hsha & Hsorted & _).
  exists line. split_and!.
  - exact Hout.
  - exact Hip.
  - exact Hsession.
  - exact Hsorted.
  - exact Hsha.
Defined.

(** C8, as stated, fails on a body that is not valid UTF-8: under
    ["request.body"] the line holds the replacement character for the
    byte [0xFF], and nothing else; the body itself is not in the
    record. *)
Lemma event_line_replaces_invalid_bytes :
  let r := {| http.Method := "POST"; http.Proto := "HTTP/1.1";
              http.RequestURI := "/upload"; http.URL := "/upload";
              http.RemoteAddr := "203.0.113.7:51234";
              http.Headers := {[ "User-Agent" := ["curl/8.5.0"] ]};
              http.Body := bytes [0xFF]%Z |} in
  ∃ line,
    logger.Out
      (logger.EventLogger
         (logger.LogEvent sampleLogger sampleMachine r sampleJSONResponse
            "80" "llm").1)
    = [line]
    ∧ ("request.body", logger.VString (bytes [0xEF; 0xBF; 0xBD]%Z)) ∈ line
    ∧ (∀ v, ("request.body", v) ∈ line →
            v = logger.VString (bytes [0xEF; 0xBF; 0xBD]%Z))
    ∧ ("request.body", logger.VString (http.Body r)) ∉ line.
Proof.
  intros r.
  destruct (LogEvent_object sampleLogger sampleMachine r sampleJSONResponse
              "80" "llm" eq_refl)
    as (data & Hout & Hreq & _ & _ & _ & _ & _ & Htemp & _ & _ & _ & _ & _
        & Hplain).
  pose proof (Encode_temperature data _ Htemp Hplain) as Henc.
  change (json.finite _) with true in Henc. destruct Henc as [line Hline].
  assert (Hbody : data !! "request.body"
                  = Some (logger.VString (bytes [0xFF]%Z))).
  { rewrite Hreq by (left; unfold commonKeys; rewrite !elem_of_cons; tauto).
    vm_compute. reflexivity. }
  assert (Honly : ∀ v, ("request.body", v) ∈ line →
                       v = logger.VString (bytes [0xEF; 0xBF; 0xBD]%Z)).
  { intros v Hin.
    apply (Encode_member_inv data) in Hin as (k & v0 & Hk & Hname & Hv);
      [|done].
    symmetry in Hname. apply text_ascii_inv in Hname as ->; [|done].
    rewrite Hbody in Hk. injection Hk as <-. by injection Hv as <-. }
  exists line. split_and!.
  - rewrite Hout, Hline. reflexivity.
  - apply (Encode_holds data line "request.body" (bytes [0xFF]%Z)); done.
  - exact Honly.
  - intros Hin. apply Honly in Hin. discriminate Hin.
Qed.

(** ** Shutting down *)

Lemma startServers_registry_from (cfg : Config) (nw : Network)
    (ended : list PortConfig) :
  ∀ (acc : Startup) (port : Z) (server : Server),
    Servers
      (foldl (λ acc pc,
                let '(lines, err) := startListener cfg nw pc in
                match err with
                | Some e =>
                    {| Servers := Servers acc;
                       startup_log := startup_log acc ++ lines;
                       startup_err := Some (default e (startup_err acc)) |}
                | None =>
                    {| Servers := <[Port pc := setupServer pc]> (Servers acc);
                       startup_log := startup_log acc ++ lines;
                       startup_err := startup_err acc |}
                end) acc ended) !! port = Some server →
    Servers acc !! port = Some server
    ∨ ∃ pc, pc ∈ ended ∧ Port pc = port ∧ server = setupServer pc
            ∧ (startListener cfg nw pc).2 = None.
Proof.
  induction ended as [|pc rest IH]; intros acc port server; cbn [foldl].
  - by left.
  - intros H. apply IH in H as [H|(pc' & Hin & ?)].
    + destruct (startListener cfg nw pc) as [lines [e|]] eqn:E;
        cbn in H; [by left|].
      destruct (decide (Port pc = port)) as [<-|Hne].
      * rewrite lookup_insert_eq in H. injection H as <-.
        right. exists pc. rewrite E. split_and!; try done.
        apply list_elem_of_here.
      * rewrite lookup_insert_ne in H by done. by left.
    + right. exists pc'. split; [by apply list_elem_of_further|done].
Qed.

(** A server enters [app.Servers] only when the call that serves it has
    returned, and returned no error. *)
Lemma startServers_registry (cfg : Config) (nw : Network)
    (ended : list PortConfig) (port : Z) (server : Server) :
  Servers (startServers cfg nw ended) !! port = Some server →
  ∃ pc, pc ∈ ended ∧ Port pc = port ∧ server = setupServer pc
        ∧ (startListener cfg nw pc).2 = None.
Proof.
  intros H. apply startServers_registry_from in H as [H|H]; [|done].
  cbn in H. by rewrite lookup_empty in H.
Qed.

(** A serving call that never returns [nil] makes every listener end in
    an error. *)
Lemma startListener_never_nil (cfg : Config) (nw : Network)
    (pc : PortConfig) :
  (∀ server, ListenAndServe nw server ≠ None) →
  (∀ server cert key, ListenAndServeTLS nw server cert key ≠ None) →
  (startListener cfg nw pc).2 ≠ None.
Proof.
  intros Hhttp Htls. unfold startListener, startTLSServer, startHTTPServer.
  repeat case_match; simplify_eq/=; try done.
  all: match goal with
       | H : ListenAndServeTLS _ _ _ _ = None |- _ => by apply Htls in H
       | H : ListenAndServe _ _ = None |- _ => by apply Hhttp in H
       end.
Qed.

(** C9, on the code. [app.Servers] holds only servers whose serving
    call has already returned without an error. As [ListenAndServe] and
    [ListenAndServeTLS] never return [nil], the registry is empty whenever
    the signal arrives: [Shutdown] is called on no server, listening or
    not, and the process exits with status 0 at once. *)
Theorem shutdown_reaches_no_listener :
  ∀ (cfg : Config) (nw : Network) (ended : list PortConfig)
    (Shutdown : Server → option error),
    (∀ server, ListenAndServe nw server ≠ None) →
    (∀ server cert key, ListenAndServeTLS nw server cert key ≠ None) →
    let registry := Servers (startServers cfg nw ended) in
    let exit := listenForShutdownSignals registry Shutdown in
    registry = ∅
    ∧ shut_down exit = []
    ∧ exit_log exit
      = [ Infof "received shutdown signal. shutting down servers..." [];
          Infoln "all servers shut down gracefully." ]
    ∧ exit_status exit = 0%Z.
Proof.
  intros cfg nw ended Shutdown Hhttp Htls registry exit.
  assert (Hempty : registry = ∅).
  { apply map_empty. intros port.
    destruct (registry !! port) as [server|] eqn:H; [|done].
    apply startServers_registry in H as (pc & _ & _ & _ & Hnil).
    by apply (startListener_never_nil cfg nw pc) in Hnil. }
  subst exit. rewrite Hempty. unfold listenForShutdownSignals.
  by rewrite map_to_list_empty.
Qed.

Lemma shutdown_reaches_no_listener_witness :
  shut_down
    (listenForShutdownSignals
       (Servers (startServers sampleConfig sampleNetwork []))
       (λ _, None))
  = []
  ∧ Servers (startServers sampleConfig sampleNetwork (Ports sampleConfig))
    = ∅.
Proof.
  split.
  - apply (shutdown_reaches_no_listener sampleConfig sampleNetwork []
             (λ _, None)); intros; discriminate.
  - apply (shutdown_reaches_no_listener sampleConfig sampleNetwork
             (Ports sampleConfig) (λ _, None)); intros; discriminate.
Defined.

(* ===================================================================== *)
(** * Further properties *)
(* ===================================================================== *)

(** ** The address of a server and the port of its handler *)

Lemma allDigits_of_uint (d : Decimal.uint) :
  allDigits (NilEmpty.string_of_uint d) = true.
Proof. induction d; simpl; auto. Qed.

Lemma allDigits_itoa (n : Z) : allDigits (itoa n) = true.
Proof.
  unfold itoa, NilZero.string_of_uint.
  destruct (N.to_uint (Z.to_N n)) eqn:E; try done;
    rewrite <- E; apply allDigits_of_uint.
Qed.

Lemma IndexByte_digits (s : string) (c : ascii) :
  allDigits s = true →
  (nat_of_ascii c < 48 ∨ 57 < nat_of_ascii c)%nat →
  net.IndexByte s c = (-1)%Z ∧ net.LastIndexByte s c = (-1)%Z.
Proof.
  intros Hs Hc. induction s as [|a s IH]; [done|].
  cbn [allDigits] in Hs. apply andb_true_iff in Hs as [Ha Hs].
  apply andb_true_iff in Ha as [Hlo Hhi].
  apply Nat.leb_le in Hlo, Hhi.
  destruct (IH Hs) as [Hi Hl].
  cbn [net.IndexByte net.LastIndexByte]. rewrite Hi, Hl.
  destruct (Ascii.eqb_spec a c) as [->|]; [lia|done].
Qed.

Lemma substring_all (s : string) : String.substring 0 (String.length s) s = s.
Proof. induction s; simpl; by f_equal. Qed.

(** The address [":<port>"] splits into an empty host and the port. *)
Lemma SplitHostPort_port (s : string) :
  allDigits s = true → net.SplitHostPort (":" +:+ s) = inl ("", s).
Proof.
  intros Hs.
  destruct (IndexByte_digits s ":" Hs) as [Hc Hlc]; [right; vm_compute; lia|].
  destruct (IndexByte_digits s "[" Hs) as [Hb _]; [right; vm_compute; lia|].
  destruct (IndexByte_digits s "]" Hs) as [He _]; [right; vm_compute; lia|].
  unfold net.SplitHostPort, net.slice, net.len, net.byte_at.
  change (":" +:+ s) with (String ":" s).
  cbn [net.LastIndexByte net.IndexByte String.length String.get].
  rewrite Hlc. simpl.
  replace (Z.to_nat (Z.of_nat (S (String.length s)) - 0))
    with (S (String.length s)) by lia.
  replace (Z.to_nat (Z.of_nat (S (String.length s)) - (0 + 1)))
    with (String.length s) by lia.
  rewrite !substring_all. cbn [net.IndexByte]. rewrite Hb, He. by simpl.
Qed.

(** X1. The address that [setupServer] gives a server, [":<port>"], is
    read back by [handleRequest] as exactly the decimal of the configured
    port: the port under which requests are logged and cached is the one
    of the binding. *)
Theorem setupServer_port_round_trip :
  ∀ pc : PortConfig,
    net.SplitHostPort (Addr (setupServer pc)) = inl ("", itoa (Port pc))
    ∧ destPort (Addr (setupServer pc)) = itoa (Port pc).
Proof.
  intros pc. unfold destPort, setupServer; simpl.
  by rewrite SplitHostPort_port by apply allDigits_itoa.
Qed.

(** ** The reply and the event of a request that succeeds *)

(** X2. When the bytes obtained, cached or freshly generated, decode
    into a record, the client gets an implicit status 200, the body of the
    record in one write, and under each name the value of the last header
    of the record ranged over that is not excluded and has this name for
    its canonical spelling; every header that is not excluded leaves a
    header of its canonical name, with its own value when no two names
    of the record are spelled alike canonically, and no other header is
    set. The record is sent once and no error is logged. *)
Theorem handleRequest_success_reply :
  ∀ (lowerCase : Z → Z) (getCacheKey : http.Request → string → string)
    (Unmarshal : string → HTTPResponse + error)
    (env : Env) (r : http.Request) (serverAddr : string)
    (c : gmap string string) (bytes : string) (record : HTTPResponse),
    let key := getCacheKey r (destPort serverAddr) in
    c !! key = Some bytes ∨ (c !! key = None ∧ llm env = inl bytes) →
    Unmarshal bytes = inl record →
    let σ' := exec (handleRequest lowerCase getCacheKey Unmarshal env r
                      serverAddr)
                   (start c) in
    let canonical := http.CanonicalMIMEHeaderKey in
    http.status (client σ') = Some http.StatusOK
    ∧ http.written (client σ') = [Body record]
    ∧ (∀ name,
         http.header (client σ') !! name
         = (λ value, [value])
             <$> survivor lowerCase (range_headers env (Headers record)) name)
    ∧ (∀ name,
         isExcludedHeader lowerCase name = true →
         http.header (client σ') !! name = None)
    ∧ (rangesOver env (Headers record) →
       ∀ key value,
         Headers record !! key = Some value →
         isExcludedHeader lowerCase key = false →
         is_Some (http.header (client σ') !! canonical key)
         ∧ (distinctNames (Headers record) →
            http.header (client σ') !! canonical key = Some [value]))
    ∧ (rangesOver env (Headers record) →
       ∀ name values,
         http.header (client σ') !! name = Some values →
         ∃ key value,
           Headers record !! key = Some value
           ∧ isExcludedHeader lowerCase key = false
           ∧ canonical key = name ∧ values = [value])
    ∧ sent (trace σ') = [record]
    ∧ Forall (λ line, match line with Errorf _ _ => False | _ => True end)
             (logged (trace σ')).
Proof.
  intros lowerCase getCacheKey Unmarshal env r serverAddr c bytes record key
    Hbytes Hrecord σ' canonical.
  assert (Hrun : client σ'
                 = client (exec (sendResponse lowerCase env record) (start c))
                 ∧ sent (trace σ') = [record]
                 ∧ Forall (λ line, match line with
                                   | Errorf _ _ => False
                                   | _ => True
                                   end) (logged (trace σ'))).
  { subst σ' key. revert Hbytes. run_handler.
    destruct (net.SplitHostPort serverAddr) as [[host port]|?]; simpl.
    all: intros [Hc|[Hc Hllm]]; rewrite Hc; simpl; try rewrite Hllm; simpl.
    all: try destruct (store_failure env); simpl.
    all: rewrite Hrecord; simpl.
    all: split_and!; try reflexivity; repeat constructor. }
  destruct Hrun as (Hclient & Hsent & Hlog).
  assert (Hlookup : ∀ name,
            http.header (client σ') !! name
            = (λ value, [value])
                <$> survivor lowerCase (range_headers env (Headers record))
                      name).
  { intros name. rewrite Hclient, sendResponse_header_lookup.
    by destruct (survivor _ _ name). }
  rewrite Hclient, sendResponse_client in *. cbn [fst http.Write] in *.
  split_and!; try done.
  - intros name Hex. rewrite Hlookup.
    destruct (survivor _ _ name) as [v|] eqn:E; [|done].
    apply survivor_Some in E as (k & _ & <- & Hk).
    by rewrite isExcludedHeader_Canonical, Hk in Hex.
  - intros Hperm name value Hname Hex.
    assert (Hin : (name, value) ∈ range_headers env (Headers record))
      by by apply (rangesOver_elem_of env _ _ _ Hperm).
    split.
    + rewrite Hlookup. apply fmap_is_Some.
      by apply (survivor_is_Some lowerCase _ name value).
    + intros Hdistinct. rewrite Hlookup.
      rewrite (survivor_only lowerCase _ name value); [done..|].
      intros name' value' Hin' Hsame _.
      apply (rangesOver_elem_of env _ _ _ Hperm) in Hin'.
      rewrite (Hdistinct name' name) in Hin' by (by eexists || done).
      congruence.
  - intros Hperm name values Hvalues. rewrite Hlookup in Hvalues.
    apply fmap_Some in Hvalues as (value & Hv & ->).
    apply survivor_Some in Hv as (k & Hin & Hname & Hex).
    exists k, value. split_and!; try done.
    by apply (rangesOver_elem_of env _ _ _ Hperm).
Qed.

Lemma handleRequest_success_reply_witness :
  let σ' := exec (handleRequest sampleLower sampleKey sampleUnmarshal
                    (answering (inl samplePayload) None)
                    sampleRequest ":80")
                 (start ∅) in
  http.status (client σ') = Some http.StatusOK
  ∧ http.written (client σ') = ["root:x:0:0"]
  ∧ http.header (client σ') !! "Server" = Some ["Apache"].
Proof.
  intros σ'.
  destruct (handleRequest_success_reply sampleLower sampleKey
              sampleUnmarshal (answering (inl samplePayload) None)
              sampleRequest ":80" ∅ samplePayload sampleRecord)
    as (Hstatus & Hbody & _ & _ & Hset & _).
  { right. split; [apply lookup_empty|reflexivity]. }
  { reflexivity. }
  split_and!; [exact Hstatus|exact Hbody|].
  destruct (Hset (reflexivity _) "Server" "Apache") as (_ & Hvalue);
    [reflexivity..|].
  apply Hvalue. intros key key' [v Hv] [v' Hv'] _.
  cbn [Headers sampleRecord] in *.
  apply lookup_singleton_Some in Hv as [<- _].
  by apply lookup_singleton_Some in Hv' as [<- _].
Defined.

(** X3. An event is written exactly when a record has been sent: it is
    built from the request, the record as it was decoded, excluded headers
    included, and the port of the server, and writing it is the last thing
    the handler does. A request that ends in a 500 leaves no event. *)
Theorem handleRequest_event_follows_record :
  ∀ (lowerCase : Z → Z) (getCacheKey : http.Request → string → string)
    (Unmarshal : string → HTTPResponse + error)
    (env : Env) (r : http.Request) (serverAddr : string)
    (c : gmap string string),
    let σ' := exec (handleRequest lowerCase getCacheKey Unmarshal env r
                       serverAddr)
                   (start c) in
    events (trace σ')
    = (λ record, {| ev_request := r; ev_response := record;
                    ev_port := destPort serverAddr |}) <$> sent (trace σ')
    ∧ match sent (trace σ') with
      | record :: _ =>
          last (trace σ')
          = Some (WriteLog {| ev_request := r; ev_response := record;
                              ev_port := destPort serverAddr |})
          ∧ http.status (client σ') = Some http.StatusOK
      | [] =>
          last (trace σ') = Some Reply500
          ∧ http.status (client σ') = Some http.StatusInternalServerError
      end.
Proof.
  intros lowerCase getCacheKey Unmarshal env r serverAddr c σ'.
  subst σ'. run_handler.
  destruct (net.SplitHostPort serverAddr) as [[host port]|?]; simpl.
  all: destruct (c !! _) as [bytes|] eqn:Hc; simpl.
  all: try destruct (llm env) as [bytes|?]; simpl.
  all: try destruct (store_failure env); simpl.
  all: try destruct (Unmarshal bytes); simpl.
  all: repeat split; reflexivity.
Qed.

(** X4. A write that fails because the peer is gone is logged and stops
    nothing: the record counts as sent, the line "sent the generated
    response" is logged after the error, and the event is written. *)
Theorem handleRequest_write_error_is_logged :
  ∀ (lowerCase : Z → Z) (getCacheKey : http.Request → string → string)
    (Unmarshal : string → HTTPResponse + error)
    (env : Env) (r : http.Request) (serverAddr : string)
    (c : gmap string string) (gone : error)
    (bytes : string) (record : HTTPResponse),
    let key := getCacheKey r (destPort serverAddr) in
    c !! key = Some bytes ∨ (c !! key = None ∧ llm env = inl bytes) →
    Unmarshal bytes = inl record →
    let σ' := exec (handleRequest lowerCase getCacheKey Unmarshal env r
                       serverAddr)
                   (startBroken c gone) in
    (∃ before,
       trace σ'
       = before ++
         [ Send record;
           Log (Errorf "error writing response: %s" [gone]);
           Log (Infof "sent the generated response to %s"
                      [http.RemoteAddr r]);
           WriteLog {| ev_request := r; ev_response := record;
                       ev_port := destPort serverAddr |} ])
    ∧ http.written (client σ') = [Body record]
    ∧ sent (trace σ') = [record].
Proof.
  intros lowerCase getCacheKey Unmarshal env r serverAddr c gone bytes record
    key Hbytes Hrecord σ'.
  subst σ' key. revert Hbytes. unfold startBroken. run_handler.
  destruct (net.SplitHostPort serverAddr) as [[host port]|?]; simpl.
  all: intros [Hc|[Hc Hllm]]; rewrite Hc; simpl; try rewrite Hllm; simpl.
  all: try destruct (store_failure env); simpl.
  all: rewrite Hrecord; simpl.
  all: split_and!; try reflexivity.
  all: match goal with
       | |- ∃ _, ?l = _ => by exists (take (length l - 4) l)
       end.
Qed.

Lemma handleRequest_write_error_is_logged_witness :
  let σ' := exec (handleRequest sampleLower sampleKey sampleUnmarshal
                    (answering (inl samplePayload) None)
                    sampleRequest ":80")
                 (startBroken ∅ "write: broken pipe") in
  events (trace σ') ≠ []
  ∧ http.written (client σ') = ["root:x:0:0"].
Proof.
  intros σ'.
  destruct (handleRequest_write_error_is_logged sampleLower sampleKey
              sampleUnmarshal
              (answering (inl samplePayload) None)
              sampleRequest ":80" ∅ "write: broken pipe"
              samplePayload sampleRecord)
    as ((before & Htrace) & Hbody & _).
  { right. split; [apply lookup_empty|reflexivity]. }
  { reflexivity. }
  split; [|exact Hbody].
  unfold σ'. rewrite Htrace. unfold events.
  rewrite omap_app. simpl. intros H. by apply app_eq_nil in H as [_ ?].
Defined.

(** X5. Once a generated response that decodes has been stored, the next
    request with the same key is answered from the cache: the same record,
    the same status and the same body, no call of the generation backend,
    no write to the cache, whatever the backend would have answered. The
    headers are the same too when the record is ranged over in the same
    order both times, or when no two of its names are spelled alike
    canonically. *)
Theorem handleRequest_repeat_is_served_from_cache :
  ∀ (lowerCase : Z → Z) (getCacheKey : http.Request → string → string)
    (Unmarshal : string → HTTPResponse + error)
    (env env' : Env) (r r' : http.Request) (serverAddr serverAddr' : string)
    (c : gmap string string) (bytes : string) (record : HTTPResponse),
    let key := getCacheKey r (destPort serverAddr) in
    c !! key = None →
    llm env = inl bytes →
    store_failure env = None →
    Unmarshal bytes = inl record →
    getCacheKey r' (destPort serverAddr') = key →
    let first := exec (handleRequest lowerCase getCacheKey Unmarshal env r
                         serverAddr)
                      (start c) in
    let second := exec (handleRequest lowerCase getCacheKey Unmarshal env' r'
                          serverAddr')
                       (start (cache first)) in
    sent (trace first) = [record]
    ∧ sent (trace second) = [record]
    ∧ http.status (client second) = http.status (client first)
    ∧ http.written (client second) = http.written (client first)
    ∧ (range_headers env' (Headers record)
       = range_headers env (Headers record) →
       client second = client first)
    ∧ (rangesOver env (Headers record) →
       rangesOver env' (Headers record) →
       distinctNames (Headers record) →
       client second = client first)
    ∧ generated (trace second) = []
    ∧ stored (trace second) = []
    ∧ cache second = cache first.
Proof.
  intros lowerCase getCacheKey Unmarshal env env' r r' serverAddr serverAddr'
    c bytes record key Hmiss Hllm Hstore Hrecord Hkey first second.
  assert (Hfirst : cache first = <[key := bytes]> c
                   ∧ sent (trace first) = [record]
                   ∧ client first
                     = client (exec (sendResponse lowerCase env record)
                                    (start c))).
  { subst first key. revert Hmiss. run_handler.
    destruct (net.SplitHostPort serverAddr) as [[host port]|?]; simpl.
    all: intros ->; simpl; rewrite Hllm; simpl; rewrite Hstore; simpl.
    all: by rewrite Hrecord. }
  destruct Hfirst as (Hcache & Hsent & Hclient).
  assert (Hhit : cache first !! getCacheKey r' (destPort serverAddr')
                 = Some bytes)
    by (rewrite Hkey, Hcache; apply lookup_insert_eq).
  assert (Hsecond : sent (trace second) = [record]
                    ∧ client second
                      = client (exec (sendResponse lowerCase env' record)
                                     (start c))
                    ∧ generated (trace second) = []
                    ∧ stored (trace second) = []
                    ∧ cache second = cache first).
  { subst second. revert Hhit. generalize (cache first). intros c' Hhit.
    revert Hhit. run_handler.
    destruct (net.SplitHostPort serverAddr') as [[host port]|?]; simpl.
    all: intros ->; simpl; by rewrite Hrecord. }
  destruct Hsecond as (Hsent' & Hclient' & Hgen & Hstored & Hcache').
  rewrite Hclient, Hclient', !sendResponse_client.
  cbn [start client http.Write http.with_header http.WriteHeader http.fresh
         http.header http.status http.written http.broken fst].
  split_and!; try done.
  - by intros ->.
  - intros Hperm Hperm' Hdistinct.
    by rewrite (setHeaders_distinct lowerCase (Headers record)
                  (range_headers env' (Headers record))
                  (range_headers env (Headers record))).
Qed.

Lemma handleRequest_repeat_is_served_from_cache_witness :
  let first := exec (handleRequest sampleLower sampleKey sampleUnmarshal
                       (answering (inl samplePayload) None)
                       sampleRequest ":80")
                    (start ∅) in
  let second := exec (handleRequest sampleLower sampleKey sampleUnmarshal
                        (answering (inr "connection refused") None)
                        sampleRequest ":80")
                     (start (cache first)) in
  sent (trace second) = [sampleRecord] ∧ generated (trace second) = [].
Proof.
  intros first second.
  destruct (handleRequest_repeat_is_served_from_cache sampleLower sampleKey
              sampleUnmarshal
              (answering (inl samplePayload) None)
              (answering (inr "connection refused") None)
              sampleRequest sampleRequest ":80" ":80" ∅ samplePayload
              sampleRecord)
    as (_ & Hsent & _ & _ & _ & _ & Hgen & _); try reflexivity.
  split; [exact Hsent|exact Hgen].
Defined.

(** ** Listening *)

(** X7. A TLS binding whose profile is known and names both a
    certificate and a key announces itself and listens with exactly that
    certificate and that key, its result being that of
    [ListenAndServeTLS]; an HTTP binding announces itself and listens
    whatever the TLS profiles are. In both cases the error line is logged
    exactly when the serving call returns an error. *)
Theorem startListener_listens_when_valid :
  ∀ (cfg : Config) (nw : Network) (pc : PortConfig),
    (∀ profile,
       Protocol pc = "TLS" →
       TLSProfile pc ≠ "" →
       TLS cfg !! TLSProfile pc = Some profile →
       Certificate profile ≠ "" →
       Key profile ≠ "" →
       let outcome := ListenAndServeTLS nw (setupServer pc)
                        (Certificate profile) (Key profile) in
       startListener cfg nw pc
       = ([Infof "starting HTTPS server on port %d with TLS profile: %s"
                 [itoa (Port pc); TLSProfile pc]]
          ++ match outcome with
             | Some e => [Errorf "error starting server on port %d: %s"
                                 [itoa (Port pc); e]]
             | None => []
             end,
          outcome))
    ∧ (Protocol pc = "HTTP" →
       let outcome := ListenAndServe nw (setupServer pc) in
       startListener cfg nw pc
       = ([Infof "starting HTTP server on port %d" [itoa (Port pc)]]
          ++ match outcome with
             | Some e => [Errorf "error starting server on port %d: %s"
                                 [itoa (Port pc); e]]
             | None => []
             end,
          outcome)).
Proof.
  intros cfg nw pc. split.
  - intros profile Htls Hname Hprofile Hcert Hkey outcome. subst outcome.
    unfold startListener, startTLSServer. rewrite Htls; simpl.
    destruct (String.eqb_spec (TLSProfile pc) ""); [done|].
    rewrite Hprofile.
    destruct (String.eqb_spec (Certificate profile) ""); [done|].
    destruct (String.eqb_spec (Key profile) ""); [done|]. simpl.
    by destruct (ListenAndServeTLS nw _ _ _).
  - intros Hhttp outcome. subst outcome.
    unfold startListener, startHTTPServer. rewrite Hhttp; simpl.
    by destruct (ListenAndServe nw _).
Qed.

Lemma startListener_listens_when_valid_witness :
  startListener completeConfig sampleNetwork
    {| Port := 443; Protocol := "TLS"; TLSProfile := "tls_profile1" |}
  = ([ Infof "starting HTTPS server on port %d with TLS profile: %s"
             ["443"; "tls_profile1"];
       Errorf "error starting server on port %d: %s"
              ["443"; "http: Server closed"] ],
     Some "http: Server closed").
Proof.
  destruct (startListener_listens_when_valid completeConfig sampleNetwork
              {| Port := 443; Protocol := "TLS";
                 TLSProfile := "tls_profile1" |}) as [Htls _].
  apply (Htls {| Certificate := "config/cert/cert.pem";
                 Key := "config/cert/key.pem" |});
    first [reflexivity | discriminate].
Defined.

(** ** Shutting down *)

(** X8. After the signal, [Shutdown] is called once on each server of
    the registry; a shutdown that fails costs one error line and nothing
    else: the closing line is logged and the exit status is 0 whether or
    not any shutdown failed. *)
Theorem listenForShutdownSignals_exits_zero :
  ∀ (servers : gmap Z Server) (Shutdown : Server → option error),
    let exit := listenForShutdownSignals servers Shutdown in
    exit_status exit = 0%Z
    ∧ length (shut_down exit) = size servers
    ∧ (∀ server, server ∈ shut_down exit ↔ ∃ port, servers !! port = Some server)
    ∧ length (exit_log exit)
      = (2 + length (omap Shutdown (shut_down exit)))%nat
    ∧ head (exit_log exit)
      = Some (Infof "received shutdown signal. shutting down servers..." [])
    ∧ last (exit_log exit)
      = Some (Infoln "all servers shut down gracefully.")
    ∧ (∀ server e,
         server ∈ shut_down exit → Shutdown server = Some e →
         Errorf "error shutting down server: %s" [e] ∈ exit_log exit).
Proof.
  intros servers Shutdown exit. subst exit.
  unfold listenForShutdownSignals; simpl.
  split_and!.
  - done.
  - by rewrite length_fmap, length_map_to_list.
  - intros server. rewrite list_elem_of_fmap. split.
    + intros [[port s] [-> Hin]]. exists port.
      by apply elem_of_map_to_list.
    + intros [port Hport]. exists (port, server). split; [done|].
      by apply elem_of_map_to_list.
  - f_equal. rewrite length_app. simpl.
    rewrite Nat.add_1_r. f_equal.
    induction ((map_to_list servers).*2) as [|s l IH]; [done|].
    simpl. destruct (Shutdown s); simpl; [f_equal|]; exact IH.
  - done.
  - by rewrite app_comm_cons, last_snoc.
  - intros server e Hin He. apply elem_of_cons. right.
    apply elem_of_app. left. apply list_elem_of_omap.
    exists server. split; [done|]. by rewrite He.
Qed.

(** ** The stored error message *)

Lemma HasPrefix_app_l (s p q : string) :
  strings.HasPrefix s (p +:+ q) = true → strings.HasPrefix s p = true.
Proof.
  revert s. induction p as [|a p IH]; intros s; [by destruct s|].
  rewrite app_cons. destruct s as [|c s]; simpl; [done|].
  destruct (Ascii.eqb c a); [apply IH|done].
Qed.

(** A string that holds [p] followed by [q] holds [p]. *)
Lemma Contains_app_l (s p q : string) :
  strings.Contains s (p +:+ q) = true → strings.Contains s p = true.
Proof.
  induction s as [|c s IH]; cbn [strings.Contains].
  - rewrite !orb_false_r. apply HasPrefix_app_l.
  - intros [H|H]%orb_true_iff; apply orb_true_iff.
    + left. by apply HasPrefix_app_l in H.
    + right. by apply IH.
Qed.

Lemma replaceFrom_length (old : string) (s : string) :
  ∀ skip : nat,
    (String.length (strings.replaceFrom old "" skip s) ≤ String.length s)%nat.
Proof.
  induction s as [|c s IH]; intros skip; [done|].
  cbn [strings.replaceFrom]. destruct skip as [|k].
  - destruct (strings.HasPrefix (String c s) old).
    + change ("" +:+ ?x) with x. cbn [String.length].
      etrans; [apply IH|lia].
    + cbn [String.length]. specialize (IH 0%nat). lia.
  - cbn [String.length]. etrans; [apply IH|lia].
Qed.

Lemma ReplaceAll_length (s old : string) :
  (String.length (strings.ReplaceAll s old "") ≤ String.length s)%nat.
Proof.
  unfold strings.ReplaceAll.
  destruct (String.eqb_spec old "") as [->|Hne]; [done|].
  destruct old; [done|]. apply replaceFrom_length.
Qed.

(** X9. The message that [errorFields] stores is never longer than the
    error message. It is the error message itself when that holds no
    ["<class>: "] prefix of its own class; in particular a message with
    none of the three markers is stored unchanged, with the generic class
    and the raw response beside it. *)
Theorem errorFields_keeps_unmarked_message :
  ∀ (err resp : string),
    (∃ msg,
       logger.errorFields err resp !! "msg" = Some (logger.VString msg)
       ∧ (String.length msg ≤ String.length err)%nat)
    ∧ (strings.Contains err (classOf err +:+ ": ") = false →
       logger.errorFields err resp !! "msg" = Some (logger.VString err))
    ∧ (strings.Contains err "invalidJSONResponse" = false →
       strings.Contains err "emptyLLMResponse" = false →
       strings.Contains err "contentGenerationError" = false →
       logger.errorFields err resp
       = {[ "type" := logger.VString "contentGenerationError";
            "msg" := logger.VString err;
            "invalidResponse" := logger.VString resp ]}).
Proof.
  intros err resp. split_and!.
  - eexists. split; [apply errorFields_msg|apply ReplaceAll_length].
  - intros Habsent. rewrite errorFields_msg.
    by rewrite ReplaceAll_absent by (done || apply classOf_nonempty).
  - intros H1 H2 H3.
    assert (Hnone : strings.Contains err "contentGenerationError: " = false).
    { destruct (strings.Contains err "contentGenerationError: ") eqn:E;
        [|done].
      apply (Contains_app_l err "contentGenerationError" ": ") in E.
      congruence. }
    unfold logger.errorFields, logger.errorInvalidJSONResponse,
      logger.errorEmptyLLMResponse, logger.errorContentGeneration.
    rewrite H1, H2.
    change ("contentGenerationError" +:+ ": ")
      with "contentGenerationError: ".
    rewrite ReplaceAll_absent by done.
    by rewrite insert_empty.
Qed.

Lemma errorFields_keeps_unmarked_message_witness :
  logger.errorFields "dial tcp: connection refused" "" !! "msg"
  = Some (logger.VString "dial tcp: connection refused")
  ∧ logger.errorFields "dial tcp: connection refused" "" !! "type"
    = Some (logger.VString "contentGenerationError").
Proof.
  destruct (errorFields_keeps_unmarked_message
              "dial tcp: connection refused" "") as (_ & _ & Hwhole).
  rewrite Hwhole by reflexivity. split; reflexivity.
Defined.

(** ** The names of the request headers *)

Lemma headerKeys_spec (headers : gmap string (list string)) :
  NoDup (logger.headerKeys headers)
  ∧ ∀ name, name ∈ logger.headerKeys headers ↔ is_Some (headers !! name).
Proof.
  unfold logger.headerKeys. split; [apply NoDup_fst_map_to_list|].
  intros name. rewrite list_elem_of_fmap. split.
  - intros [[k v] [-> Hin]]. apply elem_of_map_to_list in Hin. by exists v.
  - intros [v Hv]. exists (name, v). by rewrite elem_of_map_to_list.
Qed.

(** X10. The list under ["request.headers.sorted"] names every header
    of the request exactly once, in ascending byte order, and nothing
    else; a request without headers gives the empty list. *)
Theorem sorted_header_names_are_the_headers :
  ∀ headers : gmap string (list string),
    let names := logger.sort_Strings (logger.headerKeys headers) in
    Sorted String.le names
    ∧ NoDup names
    ∧ (∀ name, name ∈ names ↔ is_Some (headers !! name))
    ∧ length names = size headers
    ∧ (headers = ∅ → strings.Join names "," = "").
Proof.
  intros headers names. subst names.
  destruct (headerKeys_spec headers) as [Hnodup Hin].
  destruct (sort_Strings_sorted (logger.headerKeys headers))
    as [Hsorted Hperm].
  split_and!.
  - done.
  - by rewrite Hperm.
  - intros name. by rewrite Hperm.
  - rewrite Hperm. unfold logger.headerKeys.
    by rewrite length_fmap, length_map_to_list.
  - intros ->. unfold logger.headerKeys. by rewrite map_to_list_empty.
Qed.

(** X11. The sorted list of header names and its digest depend on the
    set of names only: two header maps with the same names give the same
    list and the same digest, whatever the values and whatever the
    order in which each map is ranged over. *)
Theorem sorted_header_digest_ignores_values :
  ∀ (headers headers' : gmap string (list string)),
    dom headers = dom headers' →
    logger.sort_Strings (logger.headerKeys headers)
    = logger.sort_Strings (logger.headerKeys headers')
    ∧ logger.headersSortedSha256
        (logger.sort_Strings (logger.headerKeys headers))
      = logger.headersSortedSha256
          (logger.sort_Strings (logger.headerKeys headers')).
Proof.
  intros headers headers' Hdom.
  assert (Hsame : logger.sort_Strings (logger.headerKeys headers)
                  = logger.sort_Strings (logger.headerKeys headers')).
  { apply sort_Strings_any_order.
    destruct (headerKeys_spec headers) as [Hnodup Hin].
    destruct (headerKeys_spec headers') as [Hnodup' Hin'].
    apply NoDup_Permutation; [done..|].
    intros name. rewrite Hin, Hin', <- !elem_of_dom. by rewrite Hdom. }
  split; [done|]. by rewrite Hsame.
Qed.

Lemma sorted_header_digest_ignores_values_witness :
  logger.sort_Strings
    (logger.headerKeys {[ "User-Agent" := ["curl/8.5.0"];
                          "Accept" := ["*/*"] ]})
  = logger.sort_Strings
      (logger.headerKeys {[ "Accept" := ["text/html"; "text/plain"];
                            "User-Agent" := ["Mozilla/5.0"] ]}).
Proof.
  apply (sorted_header_digest_ignores_values
           {[ "User-Agent" := ["curl/8.5.0"]; "Accept" := ["*/*"] ]}
           {[ "Accept" := ["text/html"; "text/plain"];
              "User-Agent" := ["Mozilla/5.0"] ]}).
  vm_compute. reflexivity.
Defined.

(** ** The fields of enrichment and of the sensor *)

(** X12. Enrichment never stops a record. When the lookup fails, the
    failure is logged and the tags and the host name are left blank; when
    it finds nothing they are blank and nothing is logged; when it finds
    an entry, the known scanner is the one tag and the host is the host
    name. *)
Theorem commonFields_enrichment_is_optional :
  ∀ (l : logger.Logger) (m : logger.Machine) (r : http.Request)
    (port : string),
    let srcIP := (remote r).1 in
    let fields := (logger.commonFields l m r port).1.1 in
    let lines := (logger.commonFields l m r port).2 in
    let field (k v : string) := fields !! k = Some (logger.VString v) in
    match logger.EnrichCache l srcIP with
    | inr e =>
        field "tags" "" ∧ field "hostname" ""
        ∧ Errorf "error getting enrichment info for %q: %s" [srcIP; e]
          ∈ lines
    | inl None =>
        field "tags" "" ∧ field "hostname" ""
        ∧ ∀ args,
            Errorf "error getting enrichment info for %q: %s" args ∉ lines
    | inl (Some info) =>
        field "tags" (logger.KnownScanner info)
        ∧ field "hostname" (logger.Host info)
        ∧ ∀ args,
            Errorf "error getting enrichment info for %q: %s" args ∉ lines
    end.
Proof.
  intros l m r port srcIP fields lines field.
  subst srcIP fields lines field.
  common_fields_cases.
  all: rewrite ?Join_tags.
  all: split_and!; try (fixed_field; try done).
  all: try match goal with
           | |- context [String.eqb (logger.Host ?i) ""] =>
               destruct (String.eqb_spec (logger.Host i) "") as [Heq|];
               [by rewrite Heq|done]
           end.
  all: try (apply list_elem_of_here).
  all: try (intros args Hin; simpl in Hin;
    repeat (apply elem_of_cons in Hin as [Hin|Hin]; [discriminate Hin|]);
    by apply elem_of_nil in Hin).
Qed.

(** X13. The sensor is named after the host; when the host name cannot
    be read, the record still goes out, under a freshly generated
    identifier as the name of the sensor. *)
Theorem commonFields_sensor_name_falls_back :
  ∀ (l : logger.Logger) (m : logger.Machine) (r : http.Request)
    (port : string),
    (logger.commonFields l m r port).1.1 !! "sensorName"
    = Some (logger.VString
              match logger.Hostname m with
              | inl name => name
              | inr _ => logger.NewString m
              end)
    ∧ match logger.Hostname m with
      | inl name => logger.getHostname m = inl name
      | inr e => logger.getHostname m = inr ("failed to get hostname: " +:+ e)
      end.
Proof.
  intros l m r port. split.
  - common_fields_cases.
    all: fixed_field; by destruct (logger.Hostname m).
  - unfold logger.getHostname. by destruct (logger.Hostname m).
Qed.

(** X14. The request headers are flattened after the fixed fields are
    set: a header stored under the name [sorted] or [sortedSha256] takes
    the place of the field of that name, its values joined by [", "]. *)
Theorem commonFields_header_overrides_sorted_field :
  ∀ (l : logger.Logger) (m : logger.Machine) (r : http.Request)
    (port : string) (values : list string),
    (http.Headers r !! "sorted" = Some values →
     (logger.commonFields l m r port).1.1 !! "request.headers.sorted"
     = Some (logger.VString (strings.Join values ", ")))
    ∧ (http.Headers r !! "sortedSha256" = Some values →
       (logger.commonFields l m r port).1.1
       !! "request.headers.sortedSha256"
       = Some (logger.VString (strings.Join values ", "))).
Proof.
  intros l m r port values. split; intros Hheader.
  - common_fields_cases.
    all: apply (proj1 (lookup_flatten "request.headers." _ _) "sorted").
    all: unfold logger.convertMap; by rewrite lookup_fmap, Hheader.
  - common_fields_cases.
    all: apply (proj1 (lookup_flatten "request.headers." _ _)
                  "sortedSha256").
    all: unfold logger.convertMap; by rewrite lookup_fmap, Hheader.
Qed.

Lemma commonFields_header_overrides_sorted_field_witness :
  (logger.commonFields sampleLogger sampleMachine
     {| http.Method := "GET"; http.Proto := "HTTP/1.1";
        http.RequestURI := "/"; http.URL := "/";
        http.RemoteAddr := "203.0.113.7:51234";
        http.Headers := {[ "sorted" := ["a"; "b"] ]};
        http.Body := "" |} "80").1.1 !! "request.headers.sorted"
  = Some (logger.VString "a, b").
Proof.
  apply (commonFields_header_overrides_sorted_field sampleLogger
           sampleMachine _ "80" ["a"; "b"]).
  vm_compute. reflexivity.
Defined.

(** ** Success lines and failure lines *)

(** X15. [LogError] appends one line, unless the temperature of the
    model is not a finite number, in which case nothing is written. The
    line has level [error] and the fixed message of a failed response
    under [msg], and nothing else under that name: the message of the
    error, stripped of its class, is under ["fields.msg"]. A failure
    line never carries a response body, a response header or a
    generation source. *)
Theorem LogError_line_shape :
  ∀ (l : logger.Logger) (m : logger.Machine) (r : http.Request)
    (raw port : string) (err : error),
    logger.Formatter (logger.EventLogger l) = jsonLines →
    let after := logger.EventLogger (logger.LogError l m r raw port err).1 in
    (json.finite (llm.Temperature (logger.LLMConfig l)) = true →
     ∃ line,
       logger.Out after = logger.Out (logger.EventLogger l) ++ [line]
       ∧ holds line "level" "error"
       ∧ holds line "msg" "failedResponse: returned 500 internal server error"
       ∧ (∀ v, ("msg", v) ∈ line →
               v = logger.VString
                     "failedResponse: returned 500 internal server error")
       ∧ holds line "fields.msg"
           (strings.ReplaceAll err (classOf err +:+ ": ") "")
       ∧ lacks line "response.body"
       ∧ lacks line "response.metadata.generationSource"
       ∧ ∀ k, lacks line ("response.headers." +:+ k))
    ∧ (json.finite (llm.Temperature (logger.LLMConfig l)) = false →
       after = logger.EventLogger l).
Proof.
  intros l m r raw port err Hfmt after. subst after.
  destruct (LogError_object l m r raw port err Hfmt)
    as (data & Hout & _ & _ & Hlevel & Hmsg & Hfields & _ & _ & Htemp & _ & _
        & Hbody & Hsource & Hheaders & Hplain).
  pose proof (Encode_temperature data _ Htemp Hplain) as Henc.
  rewrite Hout. split; intros Hfinite; rewrite Hfinite in Henc.
  - destruct Henc as [line Hline]. rewrite Hline. cbn [logger.Out].
    exists line. split_and!; try done.
    + by apply (Encode_holds data).
    + by apply (Encode_holds data).
    + intros v Hin.
      apply (Encode_member_inv data) in Hin as (k & v0 & Hk & Hname & Hv);
        [|done].
      symmetry in Hname. apply text_ascii_inv in Hname as ->; [|done].
      rewrite Hmsg in Hk. injection Hk as <-. by injection Hv as <-.
    + by apply (Encode_holds data).
    + by apply (Encode_lacks data).
    + by apply (Encode_lacks data).
    + by apply (Encode_lacks_prefix data).
  - by rewrite Henc.
Qed.

Lemma LogError_line_shape_witness :
  ∃ line,
    logger.Out
      (logger.EventLogger
         (logger.LogError sampleLogger sampleMachine sampleRequest "<html>"
            "80" "invalidJSONResponse: invalid character").1)
    = [line]
    ∧ holds line "level" "error"
    ∧ holds line "fields.msg" "invalid character".
Proof.
  destruct (LogError_line_shape sampleLogger sampleMachine sampleRequest
              "<html>" "80" "invalidJSONResponse: invalid character")
    as (Hfinite & _).
  { reflexivity. }
  destruct Hfinite as (line & Hout & Hlevel & _ & _ & Hmsg & _).
  { reflexivity. }
  exists line. split_and!; [exact Hout|exact Hlevel|exact Hmsg].
Defined.

(** X16. [LogEvent] appends one line, unless the temperature of the
    model is not a finite number, in which case nothing is written. The
    line has level [info] and the message [successfulResponse], and says
    where the response came from under
    ["response.metadata.generationSource"]; it never carries the class of
    an error or a raw response. *)
Theorem LogEvent_line_shape :
  ∀ (l : logger.Logger) (m : logger.Machine) (r : http.Request)
    (resp : llm.JSONResponse) (port respSource : string),
    logger.Formatter (logger.EventLogger l) = jsonLines →
    let after :=
      logger.EventLogger (logger.LogEvent l m r resp port respSource).1 in
    (json.finite (llm.Temperature (logger.LLMConfig l)) = true →
     ∃ line,
       logger.Out after = logger.Out (logger.EventLogger l) ++ [line]
       ∧ holds line "level" "info"
       ∧ holds line "msg" "successfulResponse"
       ∧ holds line "response.metadata.generationSource" respSource
       ∧ lacks line "type"
       ∧ lacks line "invalidResponse")
    ∧ (json.finite (llm.Temperature (logger.LLMConfig l)) = false →
       after = logger.EventLogger l).
Proof.
  intros l m r resp port respSource Hfmt after. subst after.
  destruct (LogEvent_object l m r resp port respSource Hfmt)
    as (data & Hout & _ & _ & Hlevel & Hmsg & _ & _ & Htemp & Hsource & _ & _
        & Htype & Hraw & Hplain).
  pose proof (Encode_temperature data _ Htemp Hplain) as Henc.
  rewrite Hout. split; intros Hfinite; rewrite Hfinite in Henc.
  - destruct Henc as [line Hline]. rewrite Hline. cbn [logger.Out].
    exists line. split_and!; try done.
    + by apply (Encode_holds data).
    + by apply (Encode_holds data).
    + by apply (Encode_holds data).
    + by apply (Encode_lacks data).
    + by apply (Encode_lacks data).
  - by rewrite Henc.
Qed.

Lemma LogEvent_line_shape_witness :
  ∃ line,
    logger.Out
      (logger.EventLogger
         (logger.LogEvent sampleLogger sampleMachine sampleRequest
            sampleJSONResponse "80" "cache").1)
    = [line]
    ∧ holds line "response.metadata.generationSource" "cache"
    ∧ lacks line "type".
Proof.
  destruct (LogEvent_line_shape sampleLogger sampleMachine sampleRequest
              sampleJSONResponse "80" "cache")
    as (Hfinite & _).
  { reflexivity. }
  destruct Hfinite as (line & Hout & _ & _ & Hsource & Htype & _).
  { reflexivity. }
  exists line. split_and!; [exact Hout|exact Hsource|exact Htype].
Defined.

(** ** The digests *)

Lemma round_length (st : list Z) (kw : Z * Z) :
  length (sha256.round st kw) = length st.
Proof.
  unfold sha256.round.
  destruct st as [|a [|b [|c [|d [|e [|f [|g [|h [|]]]]]]]]]; reflexivity.
Qed.

Lemma compress_length (h block : list Z) :
  length (sha256.compress h block) = length h.
Proof.
  unfold sha256.compress. rewrite length_zip_with.
  assert (H : ∀ kws st, length (foldl sha256.round st kws) = length st).
  { induction kws as [|kw kws IH]; intros st; [done|].
    simpl. by rewrite IH, round_length. }
  rewrite H. lia.
Qed.

Lemma blocks_length (fuel : nat) :
  ∀ h ws, length (sha256.blocks fuel h ws) = length h.
Proof.
  induction fuel as [|fuel IH]; intros h ws; [done|].
  cbn [sha256.blocks]. destruct ws; [done|].
  by rewrite IH, compress_length.
Qed.

Lemma be_bytes_length (k : nat) (n : Z) : length (sha256.be_bytes k n) = k.
Proof. induction k; simpl; by f_equal. Qed.

Lemma EncodeToString_length (bytes : list Z) :
  String.length (hex.EncodeToString bytes) = (2 * length bytes)%nat.
Proof. induction bytes as [|b bytes IH]; [done|]. simpl. rewrite IH. lia. Qed.

(** X17. Whatever the body and whatever the headers, the digests under
    ["request.bodySha256"] and ["request.headers.sortedSha256"] are texts
    of 64 characters: 32 bytes, two characters each. *)
Theorem sha256_fields_have_64_characters :
  ∀ (data : string) (names : list string),
    length (sha256.Sum256 data) = 32%nat
    ∧ String.length (logger.sha256Hex data) = 64%nat
    ∧ String.length (logger.headersSortedSha256 names) = 64%nat.
Proof.
  assert (H : ∀ data, length (sha256.Sum256 data) = 32%nat).
  { intros data. unfold sha256.Sum256.
    assert (Hjoin : ∀ ws : list Z,
              length (mjoin (sha256.be_bytes 4 <$> ws))
              = (4 * length ws)%nat).
    { intros ws. rewrite length_join, <- list_fmap_compose.
      rewrite (sum_list_fmap_same 4); [lia|].
      apply Forall_forall. intros w _. apply be_bytes_length. }
    rewrite Hjoin, blocks_length. reflexivity. }
  intros data names. unfold logger.headersSortedSha256, logger.sha256Hex.
  rewrite !EncodeToString_length, !H. done.
Qed.
